(** * Gravity: installer lifecycle and cluster-configuration update

    A shallow embedding of [lib/install/install.go] and
    [tool/gravity/cli/clusterconfig.go].  Go functions that call out to
    collaborators (the operator, the FSM, the controller server, the
    registered teardown handlers) are written in a small state monad whose
    state is the chronological log of the calls made so far; the answers of
    the collaborators are fields of the records the code receives. *)

From Stdlib Require Import List String Ascii Bool Arith NArith Lia.
Import ListNotations.
Open Scope string_scope.

(** ** Errors

    The sources build and test their errors with github.com/gravitational/trace,
    a library outside the repository.  This module holds the part of it the
    two files use, by the library's documented behaviour: errors are
    classified by the kind of their innermost cause, wrapping keeps nil and
    keeps the cause, and an aggregate of no error is nil. *)

Module trace.

#[local] Set Warnings "-register-all".

Inductive ErrKind : Type :=
| KNotFound
| KAlreadyExists
| KNotImplemented
| KBadParameter
| KAborted
| KOther.

(** A non-nil Go error.  [TraceErr] is an error carrying a stack trace
    (what [trace.Wrap] produces), [AggregateErr] the value built by
    [trace.NewAggregate]. *)
Inductive Err : Type :=
| Base (k : ErrKind) (msg : string)
| TraceErr (e : Err)
| AggregateErr (es : list Err).

(** Go's [error] interface value: [None] is [nil]. *)
Definition error : Type := option Err.
Definition nil : error := None.

(** A Go result pair [(T, error)]. *)
Inductive result (A : Type) : Type :=
| Ok (a : A)
| Failed (e : Err).
Arguments Ok {A} a.
Arguments Failed {A} e.

Fixpoint Unwrap (e : Err) : Err :=
  match e with
  | TraceErr e' => Unwrap e'
  | _ => e
  end.

Definition kind_eqb (a b : ErrKind) : bool :=
  match a, b with
  | KNotFound, KNotFound | KAlreadyExists, KAlreadyExists
  | KNotImplemented, KNotImplemented | KBadParameter, KBadParameter
  | KAborted, KAborted | KOther, KOther => true
  | _, _ => false
  end.

Definition has_kind (k : ErrKind) (e : error) : bool :=
  match e with
  | None => false
  | Some e' =>
      match Unwrap e' with
      | Base k' _ => kind_eqb k k'
      | _ => false
      end
  end.

(** [trace.Wrap] on a non-nil error: an error that already carries a trace
    is returned as it is; any other error gets one. *)
Definition WrapErr (e : Err) : Err :=
  match e with
  | TraceErr _ => e
  | _ => TraceErr e
  end.

(** [trace.Wrap]: nil stays nil. *)
Definition Wrap (e : error) : error :=
  match e with
  | None => None
  | Some e' => Some (WrapErr e')
  end.

Definition IsNotFound : error -> bool := has_kind KNotFound.
Definition IsAlreadyExists : error -> bool := has_kind KAlreadyExists.
Definition IsNotImplemented : error -> bool := has_kind KNotImplemented.

Definition NotFound (msg : string) : Err := TraceErr (Base KNotFound msg).
Definition NotImplemented (msg : string) : Err := TraceErr (Base KNotImplemented msg).
Definition BadParameter (msg : string) : Err := TraceErr (Base KBadParameter msg).

(** The non-nil members of a list of Go errors, in order. *)
Fixpoint nonNils (errs : list error) : list Err :=
  match errs with
  | [] => []
  | None :: rest => nonNils rest
  | Some e :: rest => e :: nonNils rest
  end.

(** [trace.NewAggregate]: nil values are dropped; no error left gives nil. *)
Definition NewAggregate (errs : list error) : error :=
  match nonNils errs with
  | [] => None
  | es => Some (TraceErr (AggregateErr es))
  end.

(** [occurs e r]: the error [e] can be recovered from the returned
    value [r]: it is [r] itself, or lies under its stack trace, or is a
    member of the aggregate. *)
Inductive occurs (e : Err) : Err -> Prop :=
| occurs_here : occurs e e
| occurs_trace r : occurs e r -> occurs e (TraceErr r)
| occurs_aggregate rs r : In r rs -> occurs e r -> occurs e (AggregateErr rs).

Definition surfaces (e : Err) (r : error) : Prop :=
  match r with
  | None => False
  | Some r' => occurs e r'
  end.

End trace.

(** ** Go methods as state-passing computations *)

Definition State (S A : Type) : Type := S -> A * S.

Definition ret {S A : Type} (a : A) : State S A := fun s => (a, s).

Definition bind {S A B : Type} (m : State S A) (k : A -> State S B) : State S B :=
  fun s => let (a, s') := m s in k a s'.

Notation "x <- m ;; k" := (bind m (fun x => k))
  (at level 100, m at next level, right associativity).
Notation "m ;;; k" := (bind m (fun _ => k))
  (at level 100, right associativity).

(** ** lib/install/install.go *)

Module install.
Import trace.

(** The contexts the installer hands to its collaborators. *)
Inductive Context : Type :=
| InstallerCtx   (* i.ctx, the context i.cancel cancels *)
| ShutdownCtx.   (* context.WithTimeout(context.Background(), defaults.ShutdownTimeout) *)

(** server.Status values sent with the completion event. *)
Inductive Status : Type :=
| StatusCompleted
| StatusCompletedPending.

(** What the installer does to the outside, in the order it does it. *)
Inductive Call : Type :=
| CallCancel                                  (* i.cancel() *)
| CallAgentStop (ctx : Context)               (* i.agent.Stop(ctx) *)
| CallStop (name : string) (ctx : Context)    (* c.Stop(ctx), c a registered handler *)
| CallProcessShutdown (ctx : Context)         (* i.config.Process.Shutdown(ctx) *)
| CallServerStop (ctx : Context)              (* i.server.Stop(ctx) *)
| CallServerRun                               (* go i.server.Run(i, listener) *)
| CallProcessWait                             (* i.config.Process.Wait() *)
| CallInitOperationPlan
| CallNewFSM
| CallExecutePlan (ctx : Context)             (* machine.ExecutePlan(i.ctx, ...) *)
| CallComplete (err : error)                  (* machine.Complete(err) *)
| CallOpenUserLog                             (* os.Open(i.config.UserLogFile) *)
| CallStreamOperationLogs
| CallClusterOperator                         (* localenv.ClusterOperator() *)
| CallEmitEvents
| CallSend (completion : option Status)       (* i.server.Send(event) *)
| LogWarn (msg : string) (err : Err).         (* i.WithError(err).Warn(msg) *)

(** signals.Stopper: a teardown handler.  It is a closure, so what it
    answers may depend on the context and on everything done before. *)
Record Stopper : Type := {
  stopper_name : string;
  stopper_answer : Context -> list Call -> error
}.

(** *fsm.FSM as the installer uses it. *)
Record FSM : Type := {
  fsm_ExecutePlan : error;
  fsm_Complete : error -> error
}.

(** RuntimeConfig: the answers of the installer's collaborators. *)
Record RuntimeConfig : Type := {
  initOperationPlan : error;              (* initOperationPlan(Operator, Planner) *)
  FSMFactory_NewFSM : result FSM;
  os_Open : error;
  Operator_StreamOperationLogs : error;
  localenv_ClusterOperator : error;
  Process_Wait : error;
  AgentService_StopAgents : Context -> list Call -> error
}.

(** agentErrC: nil until startAgent makes it; its one sender delivers the
    value ServeWithToken returned. *)
Inductive errChan : Type :=
| NilErrChan
| EmptyErrChan
| Delivered (err : error).

(** doneC carries no value: a receive proceeds once it is closed. *)
Inductive doneChan : Type :=
| NilDone
| OpenDone
| ClosedDone.

Record Installer : Type := {
  config : RuntimeConfig;
  stoppers : list Stopper;
  aborters : list Stopper;
  agent : bool;                 (* i.agent != nil *)
  agentErrC : errChan;
  doneC : doneChan
}.

(** The installer is shared through a pointer: methods run in a state monad
    over the installer and the log of calls made so far. *)
Record World : Type := {
  this : Installer;
  log : list Call
}.

Definition M : Type -> Type := State World.

Definition call (c : Call) : M unit :=
  fun w => (tt, {| this := this w; log := log w ++ [c] |}).

Definition get : M Installer := fun w => (this w, w).

Definition history : M (list Call) := fun w => (log w, w).

Definition whenErr (err : error) (k : Err -> M unit) : M unit :=
  match err with
  | Some e => k e
  | None => ret tt
  end.

(** c.Stop(ctx) *)
Definition Stop (c : Stopper) (ctx : Context) : M error :=
  h <- history ;;
  call (CallStop (stopper_name c) ctx) ;;;
  ret (stopper_answer c ctx h).

Definition addStopper (stopper : Stopper) : M unit :=
  fun w =>
    let i := this w in
    (tt, {| this := {| config := config i; stoppers := stoppers i ++ [stopper];
                       aborters := aborters i; agent := agent i;
                       agentErrC := agentErrC i; doneC := doneC i |};
            log := log w |}).

Definition addAborter (aborter : Stopper) : M unit :=
  fun w =>
    let i := this w in
    (tt, {| this := {| config := config i; stoppers := stoppers i;
                       aborters := aborters i ++ [aborter]; agent := agent i;
                       agentErrC := agentErrC i; doneC := doneC i |};
            log := log w |}).

(** The loop shared by stopStoppers and abortWithContext:
    [for _, c := range cs { if err := c.Stop(ctx); err != nil { errors = append(errors, err) } }] *)
Fixpoint stopEach (ctx : Context) (cs : list Stopper) (errors : list error)
  : M (list error) :=
  match cs with
  | [] => ret errors
  | c :: rest =>
      err <- Stop c ctx ;;
      stopEach ctx rest (match err with
                         | Some _ => errors ++ [err]
                         | None => errors
                         end)
  end.

Definition stopStoppers (ctx : Context) : M error :=
  i <- get ;;
  errors <- stopEach ctx (stoppers i) [] ;;
  ret (NewAggregate errors).

Definition stopWithContext (ctx : Context) : M error :=
  call CallCancel ;;;
  i <- get ;;
  (if agent i then call (CallAgentStop ctx) else ret tt) ;;;
  err <- stopStoppers ctx ;;
  call (CallProcessShutdown ctx) ;;;
  call (CallServerStop ctx) ;;;
  ret (Wrap err).

Definition abortWithContext (ctx : Context) : M error :=
  call CallCancel ;;;
  i <- get ;;
  errors <- stopEach ctx (aborters i) [] ;;
  call (CallProcessShutdown ctx) ;;;
  call (CallServerStop ctx) ;;;
  ret (NewAggregate errors).

Definition stop : M unit :=
  err <- stopWithContext ShutdownCtx ;;
  whenErr err (fun e => call (LogWarn "Failed to stop." e)).

Definition abort : M unit :=
  err <- abortWithContext ShutdownCtx ;;
  whenErr err (fun e => call (LogWarn "Failed to abort." e)).

(** Modelled from the spec: installpb.IsAbortedErr (lib/install/proto is not
    among the sources).  The spec, section 6: IsAbortedErr(err) is true for
    error kind aborted or any wrapped cause of the same kind. *)
Definition IsAbortedErr (err : error) : bool := has_kind KAborted err.

(** The three cases of the select statement in Run. *)
Inductive SelectCase : Type :=
| CaseErrC        (* case err := <-errC *)
| CaseAgentErrC   (* case err := <-i.agentErrC *)
| CaseDoneC.      (* case <-i.doneC *)

(** The value Run returns when its select takes the case [c]; [None] when
    that case cannot proceed.  [serverRun] is what i.server.Run(i, listener)
    has returned, [None] while the server is still running. *)
Definition selectCase (serverRun : option error) (i : Installer) (c : SelectCase)
  : option error :=
  match c with
  | CaseErrC =>
      match serverRun with
      | Some err => Some (Wrap err)
      | None => None
      end
  | CaseAgentErrC =>
      match agentErrC i with
      | Delivered err => Some (Wrap err)
      | _ => None
      end
  | CaseDoneC =>
      match doneC i with
      | ClosedDone => Some nil
      | _ => None
      end
  end.

(** Run.  The result is [None] when the select blocks on the case the
    scheduler offers; the deferred function runs on return, with the named
    result [err] already set. *)
Definition Run (serverRun : option error) (taken : SelectCase) : M (option error) :=
  call CallServerRun ;;;
  i <- get ;;
  match selectCase serverRun i taken with
  | None => ret None
  | Some err =>
      (if IsAbortedErr err then abort else stop) ;;;
      ret (Some err)
  end.

Definition isNil (err : error) : bool :=
  match err with
  | None => true
  | Some _ => false
  end.

Definition ExecuteOperation : M error :=
  i <- get ;;
  call CallInitOperationPlan ;;;
  let err := initOperationPlan (config i) in
  if negb (isNil err) && negb (IsAlreadyExists err) then ret (Wrap err)
  else
    call CallNewFSM ;;;
    match FSMFactory_NewFSM (config i) with
    | Failed e => ret (Wrap (Some e))
    | Ok machine =>
        call (CallExecutePlan InstallerCtx) ;;;
        let err := fsm_ExecutePlan machine in
        whenErr err (fun e => call (LogWarn "Failed to execute operation plan." e)) ;;;
        call (CallComplete err) ;;;
        match fsm_Complete machine err with
        | Some completeErr =>
            call (LogWarn "Failed to complete operation." completeErr) ;;;
            ret (Wrap (if isNil err then Some completeErr else err))
        | None => ret (Wrap err)
        end
    end.

Definition uploadInstallLog : M error :=
  i <- get ;;
  call CallOpenUserLog ;;;
  match os_Open (config i) with
  | Some e => ret (Wrap (Some e))
  | None =>
      call CallStreamOperationLogs ;;;
      match Operator_StreamOperationLogs (config i) with
      | Some e => ret (Wrap (Some e))
      | None => ret nil
      end
  end.

Definition emitAuditEvents : M error :=
  i <- get ;;
  call CallClusterOperator ;;;
  match localenv_ClusterOperator (config i) with
  | Some e =>
      call (LogWarn "Failed to create cluster operator." e) ;;;
      ret (Wrap (Some e))
  | None =>
      call CallEmitEvents ;;;
      call CallEmitEvents ;;;
      ret nil
  end.

Definition appendErr (errors : list error) (err : error) : list error :=
  match err with
  | Some _ => errors ++ [err]
  | None => errors
  end.

Definition completeOperation (status : Status) : M error :=
  i <- get ;;
  err1 <- uploadInstallLog ;;
  let errors := appendErr [] err1 in
  err2 <- emitAuditEvents ;;
  let errors := appendErr errors err2 in
  addStopper {| stopper_name := "StopAgents";
                stopper_answer := fun ctx h => Wrap (AgentService_StopAgents (config i) ctx h) |} ;;;
  call (CallSend None) ;;;
  call (CallSend (Some status)) ;;;
  ret (NewAggregate errors).

Definition CompleteOperation : M error := completeOperation StatusCompleted.

Definition wait : M error :=
  i <- get ;;
  stopStoppers InstallerCtx ;;;
  call CallProcessWait ;;;
  ret (Wrap (Process_Wait (config i))).

Definition CompleteOperationAndWait : M error :=
  err1 <- completeOperation StatusCompletedPending ;;
  let errors := appendErr [] err1 in
  err2 <- wait ;;
  let errors := appendErr errors err2 in
  ret (NewAggregate errors).

(** *** Execute under concurrency

    Each call of Execute is a thread with four control points; executeSema
    is a channel of capacity one, represented by the number of tokens it
    buffers.  A move is one atomic step of one thread, or the cancellation
    of its request context by the caller. *)

Inductive PC : Type :=
| AtWait      (* in waitForExecuteToken, at the select *)
| AtWork      (* past waitForExecuteToken: executePhase or Engine.Execute *)
| AtRelease   (* the deferred releaseExecuteToken, at the receive *)
| Returned.

Record Thread : Type := {
  pc : PC;
  ctxDone : bool;      (* ctx.Done() is closed *)
  acquired : bool      (* this call's send on executeSema went through *)
}.

Record Sys : Type := {
  executeSema : nat;
  threads : list Thread
}.

Definition executeSemaCap : nat := 1.   (* make(chan struct{}, 1) *)

Inductive Move : Type :=
| SendToken       (* case i.executeSema <- struct{}{}: *)
| CtxDone         (* case <-ctx.Done(): *)
| FinishWork      (* the work returns; the deferred call starts *)
| ReleaseToken    (* <-i.executeSema *)
| CancelCtx.      (* the caller cancels ctx *)

Fixpoint setThread (n : nat) (t : Thread) (ts : list Thread) : list Thread :=
  match ts, n with
  | [], _ => []
  | _ :: rest, O => t :: rest
  | x :: rest, S n' => x :: setThread n' t rest
  end.

Definition pc_eqb (a b : PC) : bool :=
  match a, b with
  | AtWait, AtWait | AtWork, AtWork | AtRelease, AtRelease | Returned, Returned => true
  | _, _ => false
  end.

Definition moveTo (s : Sys) (n : nat) (t : Thread) (tokens : nat) (to : PC)
  (gotToken : bool) : Sys :=
  {| executeSema := tokens;
     threads := setThread n {| pc := to; ctxDone := ctxDone t;
                               acquired := acquired t || gotToken |} (threads s) |}.

(** waitForExecuteToken: the select between the send on executeSema, which
    proceeds while the buffer has room, and the receive from ctx.Done(),
    which proceeds once the context is cancelled.  Either way the function
    returns, and returns nothing. *)
Definition waitForExecuteToken (s : Sys) (n : nat) (t : Thread) (m : Move) : option Sys :=
  match m with
  | SendToken =>
      if Nat.ltb (executeSema s) executeSemaCap
      then Some (moveTo s n t (S (executeSema s)) AtWork true)
      else None
  | CtxDone =>
      if ctxDone t then Some (moveTo s n t (executeSema s) AtWork false) else None
  | _ => None
  end.

(** releaseExecuteToken: the receive from executeSema, which blocks while
    the buffer is empty. *)
Definition releaseExecuteToken (s : Sys) (n : nat) (t : Thread) : option Sys :=
  match executeSema s with
  | O => None
  | S k => Some (moveTo s n t k Returned false)
  end.

(** Execute, one move at a time: the wait, the work, the deferred release. *)
Definition Execute (s : Sys) (n : nat) (t : Thread) (m : Move) : option Sys :=
  match pc t, m with
  | AtWait, _ => waitForExecuteToken s n t m
  | AtWork, FinishWork => Some (moveTo s n t (executeSema s) AtRelease false)
  | AtRelease, ReleaseToken => releaseExecuteToken s n t
  | _, _ => None
  end.

(** One move of thread [n]; [None] when the thread does not exist or the
    move cannot be made in this state (the thread is elsewhere, or the
    channel operation blocks). *)
Definition step (s : Sys) (n : nat) (m : Move) : option Sys :=
  match nth_error (threads s) n with
  | None => None
  | Some t =>
      match m with
      | CancelCtx =>
          Some {| executeSema := executeSema s;
                  threads := setThread n {| pc := pc t; ctxDone := true;
                                            acquired := acquired t |} (threads s) |}
      | _ => Execute s n t m
      end
  end.

Fixpoint run (s : Sys) (schedule : list (nat * Move)) : option Sys :=
  match schedule with
  | [] => Some s
  | (n, m) :: rest =>
      match step s n m with
      | Some s' => run s' rest
      | None => None
      end
  end.

(** [calls] concurrent calls of Execute on a fresh installer. *)
Definition initial (calls : nat) : Sys :=
  {| executeSema := 0;
     threads := repeat {| pc := AtWait; ctxDone := false; acquired := false |} calls |}.

(** The number of calls that are inside their phase work. *)
Definition working (s : Sys) : nat :=
  List.length (filter (fun t => pc_eqb (pc t) AtWork) (threads s)).

Definition isCancel (m : Move) : bool :=
  match m with
  | CancelCtx => true
  | _ => false
  end.

Definition cancels (schedule : list (nat * Move)) : bool :=
  existsb (fun nm => isCancel (snd nm)) schedule.

(** A call that is past waitForExecuteToken and has not yet received from
    executeSema: it counts on holding the token. *)
Definition inCritical (t : Thread) : bool :=
  match pc t with
  | AtWork | AtRelease => true
  | _ => false
  end.

(** *** Vocabulary of the statements about teardown *)

(** The log entry of a handler's invocation. *)
Definition callOf (ctx : Context) (c : Stopper) : Call := CallStop (stopper_name c) ctx.

(** What the handlers [cs] answer when invoked one after the other, first
    to last, starting from the history [h]; nil answers included. *)
Fixpoint answers (ctx : Context) (cs : list Stopper) (h : list Call) : list error :=
  match cs with
  | [] => []
  | c :: rest => stopper_answer c ctx h :: answers ctx rest (h ++ [callOf ctx c])
  end.

(** The errors collected by the loop: the non-nil answers, in order. *)
Definition failures (ctx : Context) (cs : list Stopper) (h : list Call) : list error :=
  filter (fun err => negb (isNil err)) (answers ctx cs h).

(** Registration of the handlers [hs], first to last. *)
Fixpoint addStoppers (hs : list Stopper) : M unit :=
  match hs with
  | [] => ret tt
  | h :: rest => addStopper h ;;; addStoppers rest
  end.

Fixpoint addAborters (hs : list Stopper) : M unit :=
  match hs with
  | [] => ret tt
  | h :: rest => addAborter h ;;; addAborters rest
  end.

(** The handlers' names in the order the log shows their invocations. *)
Fixpoint invoked (l : list Call) : list string :=
  match l with
  | [] => []
  | CallStop name _ :: rest => name :: invoked rest
  | _ :: rest => invoked rest
  end.

(** While no context is cancelled, the calls that are past the wait are as
    many as the tokens in the channel, which holds at most one. *)
Definition tokenInvariant (s : Sys) : Prop :=
  Forall (fun t => ctxDone t = false) (threads s)
  /\ List.length (filter inCritical (threads s)) = executeSema s
  /\ executeSema s <= executeSemaCap.

(** *** Sample installers *)

Definition planFailed : Err := Base KOther "phase failed".

Definition completeFailed : Err := Base KOther "complete failed".

Definition failingMachine : FSM :=
  {| fsm_ExecutePlan := Some planFailed;
     fsm_Complete := fun _ => Some completeFailed |}.

Definition sampleConfig : RuntimeConfig :=
  {| initOperationPlan := Some (Base KAlreadyExists "plan already exists");
     FSMFactory_NewFSM := Ok failingMachine;
     os_Open := nil;
     Operator_StreamOperationLogs := Some (Base KOther "upload failed");
     localenv_ClusterOperator := nil;
     Process_Wait := Some (Base KOther "process exited");
     AgentService_StopAgents := fun _ _ => nil |}.

(** An installer as New leaves it when no local agent is configured. *)
Definition fresh (c : RuntimeConfig) : World :=
  {| this := {| config := c; stoppers := []; aborters := []; agent := false;
                agentErrC := NilErrChan; doneC := NilDone |};
     log := [] |}.

Definition firstHandler : Stopper :=
  {| stopper_name := "first"; stopper_answer := fun _ _ => Some (Base KOther "first failed") |}.

Definition secondHandler : Stopper :=
  {| stopper_name := "second"; stopper_answer := fun _ _ => nil |}.

(** A running installer whose local agent has stopped serving without an
    error, while the server runs and the operation is not done. *)
Definition agentExited : World :=
  {| this := {| config := sampleConfig; stoppers := [secondHandler]; aborters := [firstHandler];
                agent := true; agentErrC := Delivered nil; doneC := OpenDone |};
     log := [] |}.

End install.

(** ** lib/install/install.go: construction and agent start-up *)

Module installer.
Import trace install.

(** storage.AgentProfile, the part the installer reads. *)
Record AgentProfile : Type := {
  AgentURL : string
}.

(** ops.SiteOperation, the part the installer reads.  InstallExpand.Agents
    is a map from role to profile, only ever looked up. *)
Record SiteOperation : Type := {
  ID : string;
  SiteDomain : string;
  InstallExpand_Agents : string -> option AgentProfile
}.

(** The collaborators of construction and agent start-up, beside those of
    RuntimeConfig; the log keeps the calls listed in Call, these are only
    asked for their answers. *)
Record Services : Type := {
  checkAndSetDefaults : error;                   (* config.checkAndSetDefaults() *)
  LocalAgent : bool;                             (* config.Config.LocalAgent *)
  newAgent : error;                              (* the error of newAgent(ctx, config.Config) *)
  Role : string;                                 (* i.config.Role *)
  GetWizardOperation : result SiteOperation;     (* ops.GetWizardOperation(i.config.Operator) *)
  getTokenFromURL : string -> result string;
  fmt_q : string -> string;                      (* fmt's %q rendering *)
  CreateClusterAdminAgent : string -> error;     (* the error of UsersService().CreateClusterAdminAgent *)
  AgentService_AbortAgents : Context -> list Call -> error
}.

Definition setAgentErrC (c : errChan) : M unit :=
  fun w =>
    let i := this w in
    (tt, {| this := {| config := config i; stoppers := stoppers i;
                       aborters := aborters i; agent := agent i;
                       agentErrC := c; doneC := doneC i |};
            log := log w |}).

(** startAgent.  The goroutine it starts sends on agentErrC when
    ServeWithToken returns; at the return of startAgent the channel is
    empty. *)
Definition startAgent (S : Services) (operation : SiteOperation) : M error :=
  i <- get ;;
  if negb (agent i) then ret nil
  else
    match InstallExpand_Agents operation (Role S) with
    | None => ret (Some (BadParameter ("no agent profile for role " ++ fmt_q S (Role S))))
    | Some profile =>
        match getTokenFromURL S (AgentURL profile) with
        | Failed e => ret (Some (WrapErr e))
        | Ok token =>
            setAgentErrC EmptyErrChan ;;;
            ret nil
        end
    end.

Definition maybeStartAgent (S : Services) : M error :=
  match GetWizardOperation S with
  | Failed _ => ret nil
  | Ok op =>
      err <- startAgent S op ;;
      ret (Wrap err)
  end.

Definition upsertAdminAgent (S : Services) (clusterName : string) : M error :=
  let err := CreateClusterAdminAgent S clusterName in
  if negb (isNil err) && negb (IsAlreadyExists err) then ret (Wrap err)
  else ret nil.

(** The handler NotifyOperationAvailable registers. *)
Definition abortAgents (S : Services) : Stopper :=
  {| stopper_name := "AbortAgents";
     stopper_answer := fun ctx h => Wrap (AgentService_AbortAgents S ctx h) |}.

(** NotifyOperationAvailable; the progress loop it starts at the end runs
    beside the installer and touches none of its fields. *)
Definition NotifyOperationAvailable (S : Services) (op : SiteOperation) : M error :=
  err <- startAgent S op ;;
  match err with
  | Some e => ret (Some (WrapErr e))
  | None =>
      addAborter (abortAgents S) ;;;
      err <- upsertAdminAgent S (SiteDomain op) ;;
      match err with
      | Some e => ret (Some (WrapErr e))
      | None => ret nil
      end
  end.

(** New: the installer, or the error that kept it from being made. *)
Definition New (S : Services) (c : RuntimeConfig) : result Installer :=
  match checkAndSetDefaults S with
  | Some e => Failed (WrapErr e)
  | None =>
      match (if LocalAgent S then newAgent S else nil) with
      | Some e => Failed (WrapErr e)
      | None =>
          let installer :=
            {| config := c; stoppers := []; aborters := []; agent := LocalAgent S;
               agentErrC := NilErrChan; doneC := NilDone |} in
          let (err, w) := maybeStartAgent S {| this := installer; log := [] |} in
          match err with
          | Some e => Failed (WrapErr e)
          | None => Ok (this w)
          end
      end
  end.

(** The answer of New is an installer. *)
Definition isOk {A : Type} (r : result A) : bool :=
  match r with
  | Ok _ => true
  | Failed _ => false
  end.

(** The agent of the wizard operation can be started: the operation has a
    profile for the installer's role and the profile's URL holds a token. *)
Definition agentStartable (S : Services) (op : SiteOperation) : bool :=
  match InstallExpand_Agents op (Role S) with
  | None => false
  | Some profile => isOk (getTokenFromURL S (AgentURL profile))
  end.

(** The warning a teardown entry point logs for the result [err]. *)
Definition warningFor (msg : string) (err : error) : list Call :=
  match err with
  | Some e => [LogWarn msg e]
  | None => []
  end.

(** The handler completeOperation registers. *)
Definition stopAgents (c : RuntimeConfig) : Stopper :=
  {| stopper_name := "StopAgents";
     stopper_answer := fun ctx h => Wrap (AgentService_StopAgents c ctx h) |}.

(** The calls of stopWithContext between the cancellation and the handlers. *)
Definition agentStop (i : Installer) (ctx : Context) : list Call :=
  if agent i then [CallAgentStop ctx] else [].

(** Every call of Execute has returned. *)
Definition allReturned (s : Sys) : Prop :=
  Forall (fun t => pc t = Returned) (threads s).

(** *** Sample services *)

Definition masterProfile : AgentProfile :=
  {| AgentURL := "agent://10.100.0.5:61009/master?access_token=secret" |}.

Definition sampleOperation : SiteOperation :=
  {| ID := "op-1"; SiteDomain := "example.com";
     InstallExpand_Agents := fun role => if (role =? "master")%string then Some masterProfile else None |}.

Definition sampleServices : Services :=
  {| checkAndSetDefaults := nil;
     LocalAgent := true;
     newAgent := nil;
     Role := "master";
     GetWizardOperation := Ok sampleOperation;
     getTokenFromURL := fun _ => Ok "secret";
     fmt_q := fun s => s;
     CreateClusterAdminAgent := fun _ => Some (Base KAlreadyExists "agent exists");
     AgentService_AbortAgents := fun _ _ => Some (Base KOther "agents unreachable") |}.

(** An installer with a local agent that has not been started. *)
Definition withAgent : World :=
  {| this := {| config := sampleConfig; stoppers := []; aborters := []; agent := true;
                agentErrC := NilErrChan; doneC := NilDone |};
     log := [] |}.

End installer.

(** ** IPv4 networks

    Go's net.ParseCIDR and IPNet.Contains on dotted-quad IPv4 text, used to
    run the cluster-configuration checks on concrete addresses. *)

Module net.

Fixpoint splitAcc (sep : ascii) (s : string) (cur : string) : list string :=
  match s with
  | EmptyString => [cur]
  | String c rest =>
      if Ascii.eqb c sep then cur :: splitAcc sep rest EmptyString
      else splitAcc sep rest (cur ++ String c EmptyString)
  end.

Definition split (sep : ascii) (s : string) : list string := splitAcc sep s EmptyString.

Definition digit (c : ascii) : option N :=
  let n := N_of_ascii c in
  if (48 <=? n)%N && (n <=? 57)%N then Some (n - 48)%N else None.

Fixpoint decimal (s : string) (acc : N) : option N :=
  match s with
  | EmptyString => Some acc
  | String c rest =>
      match digit c with
      | Some d => decimal rest (10 * acc + d)%N
      | None => None
      end
  end.

Definition parseNumber (s : string) : option N :=
  match s with
  | EmptyString => None
  | _ => decimal s 0%N
  end.

Definition octet (s : string) : option N :=
  match parseNumber s with
  | Some n => if (n <=? 255)%N then Some n else None
  | None => None
  end.

(** The address as a 32-bit number. *)
Definition ParseIP (s : string) : option N :=
  match map octet (split "."%char s) with
  | [Some a; Some b; Some c; Some d] => Some (((a * 256 + b) * 256 + c) * 256 + d)%N
  | _ => None
  end.

(** [Contains cidr ip]: the leading bits of [ip], as many as the prefix is
    long, are those of the network address. *)
Definition Contains (cidr ip : string) : bool :=
  match split "/"%char cidr with
  | [base; len] =>
      match ParseIP base, parseNumber len, ParseIP ip with
      | Some b, Some l, Some a =>
          (l <=? 32)%N && (N.shiftr a (32 - l) =? N.shiftr b (32 - l))%N
      | _, _, _ => false
      end
  | _ => false
  end.

End net.

(** ** tool/gravity/cli/clusterconfig.go *)

Module cli.
Import trace.

Record GlobalConfig : Type := {
  ServiceCIDR : string;
  PodCIDR : string
}.

(** libclusterconfig.Interface: the global section the code reads, and the
    rest of the resource. *)
Record ClusterConfig : Type := {
  GetGlobalConfig : GlobalConfig;
  GetKubeletConfig : string
}.

Record Server : Type := {
  AdvertiseIP : string;
  Hostname : string
}.

Record SiteKey : Type := {
  AccountID : string;
  SiteDomain : string
}.

Record Site : Type := {
  Key : SiteKey;
  ClusterState_Servers : list Server
}.

Record SiteOperationKey : Type := {
  OperationKey_Site : SiteKey;
  OperationID : string
}.

Record CreateUpdateConfigOperationRequest : Type := {
  ClusterKey : SiteKey;
  Config : string
}.

(** ops.Operator: the answers of the cluster operator to the calls made here. *)
Record Operator : Type := {
  GetLocalSite : result Site;
  GetClusterConfiguration : SiteKey -> result ClusterConfig;
  CreateUpdateConfigOperation : CreateUpdateConfigOperationRequest -> result SiteOperationKey
}.

Record LocalEnvironment : Type := {
  SiteOperator : result Operator
}.

(** *update.Updater *)
Record Updater : Type := {
  Updater_Run : error
}.

Record configInitializer : Type := {
  resource : string;
  config : ClusterConfig
}.

(** Functions the file calls that are defined elsewhere: in other packages
    of the repository, in other files of package cli, in Go's library. *)
Record Imports : Type := {
  validate_ClusterConfiguration : ClusterConfig -> ClusterConfig -> error;
  findLocalServer : list Server -> result Server;
  (** [net_Contains cidr ip]: the network [cidr] contains the address [ip] *)
  net_Contains : string -> string -> bool;
  fmt_Servers : list Server -> string;
  libclusterconfig_Marshal : ClusterConfig -> result string;
  confirm : result bool;
  newUpdater : LocalEnvironment -> LocalEnvironment -> configInitializer -> result Updater
}.

Inductive Call : Type :=
| CallSiteOperator
| CallGetLocalSite
| CallGetClusterConfiguration (key : SiteKey)
| CallCreateUpdateConfigOperation (req : CreateUpdateConfigOperationRequest)
| Println (s : string)
| CallConfirm
| CallNewUpdater (init : configInitializer)
| CallUpdaterRun
| CallUpdaterClose.

(** The calls that create an operation or write to a store; the others
    query the operator, talk to the terminal or release the updater. *)
Definition mutates (c : Call) : bool :=
  match c with
  | CallCreateUpdateConfigOperation _ | CallNewUpdater _ | CallUpdaterRun => true
  | _ => false
  end.

Definition M : Type -> Type := State (list Call).

Definition call (c : Call) : M unit := fun l => (tt, (l ++ [c])%list).

(** [x, err := f(); if err != nil { return trace.Wrap(err) }] *)
Definition orReturn {A : Type} (r : result A) (k : A -> M error) : M error :=
  match r with
  | Ok a => k a
  | Failed e => ret (Some (WrapErr e))
  end.

Notation "x <-? r ;; k" := (orReturn r (fun x => k))
  (at level 100, r at next level, right associativity).

(** [if err := f(); err != nil { return trace.Wrap(err) }] *)
Definition orReturnErr (err : error) (k : M error) : M error :=
  match err with
  | Some e => ret (Some (WrapErr e))
  | None => k
  end.

Definition quote : string := String (ascii_of_nat 34) EmptyString.

Definition newline : string := String (ascii_of_nat 10) EmptyString.

Definition updateConfigBanner : string :=
  "Updating cluster configuration might require restart of runtime containers on master nodes." ++ newline ++
  "The operation might take a few minutes to complete." ++ newline ++ newline ++
  "The operation will start automatically once you approve it." ++ newline ++
  "If you want to review the operation plan first or execute it manually step by step," ++ newline ++
  "run the operation in manual mode by specifying '--manual' flag." ++ newline ++ newline ++
  "Are you sure?".

Definition updateConfigBannerManual : string :=
  "Updating cluster configuration might require restart of runtime containers on master nodes." ++ newline ++
  "The operation might take a few minutes to complete." ++ newline ++ newline ++
  quote ++ "Are you sure?".

Definition updateConfigManualOperationBanner : string :=
  "The operation has been created in manual mode." ++ newline ++ newline ++
  "See https://gravitational.com/gravity/docs/cluster/#managing-operations for details on working with operation plan.".

Definition serviceCIDRMessage (advertiseIP serviceCIDR : string) : string :=
  "The advertise address " ++ advertiseIP ++
  " conflicts with the global service network CIDR range " ++ serviceCIDR ++
  ". Please specify a different service CIDR.".

Definition podCIDRMessage (advertiseIP podCIDR : string) : string :=
  "The advertise address " ++ advertiseIP ++
  " conflicts with the global pod network CIDR range " ++ podCIDR ++
  ". Please specify a different pod CIDR.".

(** Modelled from the spec: validate.NetworkOverlap (lib/validate is not
    among the sources).  The spec, sections 7 and 8: a CIDR that contains
    the advertise address is rejected as a failed precondition, with the
    message the caller supplies; the error is built with trace.BadParameter,
    the constructor trace has for a rejected input. *)
Definition NetworkOverlap (X : Imports) (ipAddr subnetCIDR errMsg : string) : error :=
  if net_Contains X subnetCIDR ipAddr then Some (BadParameter errMsg) else nil.

Definition validateClusterConfig (X : Imports) (localEnv : LocalEnvironment)
  (update : ClusterConfig) : M error :=
  call CallSiteOperator ;;;
  operator <-? SiteOperator localEnv ;;
  call CallGetLocalSite ;;;
  cluster <-? GetLocalSite operator ;;
  call (CallGetClusterConfiguration (Key cluster)) ;;;
  existing <-? GetClusterConfiguration operator (Key cluster) ;;
  orReturnErr (validate_ClusterConfiguration X existing update) (
  match findLocalServer X (ClusterState_Servers cluster) with
  | Failed _ =>
      ret (Some (NotFound ("unable to find local node among cluster state servers: " ++
                           fmt_Servers X (ClusterState_Servers cluster))))
  | Ok server =>
      let serviceCIDR := ServiceCIDR (GetGlobalConfig update) in
      let podCIDR := PodCIDR (GetGlobalConfig update) in
      orReturnErr
        (if negb (serviceCIDR =? "") then
           NetworkOverlap X (AdvertiseIP server) serviceCIDR
             (serviceCIDRMessage (AdvertiseIP server) serviceCIDR)
         else nil) (
      orReturnErr
        (if negb (podCIDR =? "") then
           NetworkOverlap X (AdvertiseIP server) podCIDR
             (podCIDRMessage (AdvertiseIP server) podCIDR)
         else nil) (
      ret nil))
  end).

Definition newConfigUpdater (X : Imports) (localEnv updateEnv : LocalEnvironment)
  (config : ClusterConfig) : M (result Updater) :=
  match libclusterconfig_Marshal X config with
  | Failed e => ret (Failed (WrapErr e))
  | Ok configBytes =>
      let init := {| resource := configBytes; config := config |} in
      call (CallNewUpdater init) ;;;
      ret (newUpdater X localEnv updateEnv init)
  end.

Definition updateConfig (X : Imports) (localEnv updateEnv : LocalEnvironment)
  (config : ClusterConfig) (manual confirmed : bool) : M error :=
  err <- validateClusterConfig X localEnv config ;;
  orReturnErr err (
  let proceed : M error :=
    r <- newConfigUpdater X localEnv updateEnv config ;;
    updater <-? r ;;
    if negb manual then
      call CallUpdaterRun ;;;
      call CallUpdaterClose ;;;
      ret (Wrap (Updater_Run updater))
    else
      call (Println updateConfigManualOperationBanner) ;;;
      call CallUpdaterClose ;;;
      ret nil
  in
  if negb confirmed then
    call (Println (if manual then updateConfigBannerManual else updateConfigBanner)) ;;;
    call CallConfirm ;;;
    resp <-? confirm X ;;
    if negb resp then
      call (Println "Action cancelled by user.") ;;;
      ret nil
    else proceed
  else proceed).

(** resetConfig: the update to the empty configuration. *)
Definition resetConfig (X : Imports) (NewEmpty : ClusterConfig)
  (localEnv updateEnv : LocalEnvironment) (manual confirmed : bool) : M error :=
  err <- updateConfig X localEnv updateEnv NewEmpty manual confirmed ;;
  ret (Wrap err).

Definition validatePreconditions (r : configInitializer) (localEnv : LocalEnvironment)
  (operator : Operator) (cluster : Site) : error := nil.

Definition notImplementedHint : string :=
  "cluster operator does not implement the API required for updating configuration. " ++
  "Please make sure you're running the command on a compatible cluster.".

Definition newOperation (r : configInitializer) (operator : Operator) (cluster : Site)
  : M (result SiteOperationKey) :=
  let req := {| ClusterKey := Key cluster; Config := resource r |} in
  call (CallCreateUpdateConfigOperation req) ;;;
  match CreateUpdateConfigOperation operator req with
  | Failed err =>
      if IsNotFound (Some err) then ret (Failed (NotImplemented notImplementedHint))
      else ret (Failed (WrapErr err))
  | Ok key => ret (Ok key)
  end.

(** *** Vocabulary and sample inputs *)

(** The message [msg] names [part]: it contains it. *)
Definition names (msg part : string) : Prop :=
  exists before after, msg = before ++ part ++ after.

(** The network [cidr] is set and contains the advertise address of [server]. *)
Definition conflicts (X : Imports) (server : Server) (cidr : string) : Prop :=
  cidr <> "" /\ net_Contains X cidr (AdvertiseIP server) = true.

(** The calls validateClusterConfig makes when the operator answers. *)
Definition queries (cluster : Site) : list Call :=
  [CallSiteOperator; CallGetLocalSite; CallGetClusterConfiguration (Key cluster)].

(** The log [l2] continues the log [l1]. *)
Definition extends (l1 l2 : list Call) : Prop := exists rest, l2 = (l1 ++ rest)%list.

Definition sampleSite : Site :=
  {| Key := {| AccountID := "system"; SiteDomain := "example.com" |};
     ClusterState_Servers := [ {| AdvertiseIP := "10.100.0.5"; Hostname := "node-1" |} ] |}.

Definition sampleExisting : ClusterConfig :=
  {| GetGlobalConfig := {| ServiceCIDR := "10.200.0.0/16"; PodCIDR := "10.244.0.0/16" |};
     GetKubeletConfig := "" |}.

Definition sampleOperator : Operator :=
  {| GetLocalSite := Ok sampleSite;
     GetClusterConfiguration := fun _ => Ok sampleExisting;
     CreateUpdateConfigOperation := fun _ => Failed (NotFound "no such endpoint") |}.

Definition sampleEnv : LocalEnvironment := {| SiteOperator := Ok sampleOperator |}.

Definition sampleImports : Imports :=
  {| validate_ClusterConfiguration := fun _ _ => nil;
     findLocalServer := fun servers =>
       match servers with
       | s :: _ => Ok s
       | [] => Failed (Base KNotFound "no local server")
       end;
     net_Contains := net.Contains;
     fmt_Servers := fun servers => String.concat " " (map AdvertiseIP servers);
     libclusterconfig_Marshal := fun c => Ok (ServiceCIDR (GetGlobalConfig c));
     confirm := Ok true;
     newUpdater := fun _ _ _ => Ok {| Updater_Run := Some (Base KOther "phase failed") |} |}.

(** An update whose service network contains the node's address 10.100.0.5. *)
Definition conflictingUpdate : ClusterConfig :=
  {| GetGlobalConfig := {| ServiceCIDR := "10.100.0.0/16"; PodCIDR := "" |};
     GetKubeletConfig := "" |}.

(** An update whose networks keep clear of the node's address. *)
Definition harmlessUpdate : ClusterConfig :=
  {| GetGlobalConfig := {| ServiceCIDR := "10.200.0.0/16"; PodCIDR := "" |};
     GetKubeletConfig := "" |}.

End cli.

(** ** tool/gravity/cli/clusterconfig.go: the operation's phases *)

Module cli_phase.
Import trace.

(** PhaseParams and SetPhaseParams, the fields these functions read. *)
Record PhaseParams : Type := {
  PhaseID : string;
  Force : bool;
  DryRun : bool;
  Timeout : nat
}.

Record SetPhaseParams : Type := {
  SetPhase_PhaseID : string;
  SetPhase_State : string
}.

(** libfsm.Params as built by rollbackConfigPhaseForOperation. *)
Record Params : Type := {
  Params_PhaseID : string;
  Params_Force : bool;
  Params_DryRun : bool
}.

Inductive Call : Type :=
| CallNewUpdateEnv                            (* environ.NewUpdateEnv() *)
| CallUpdateEnvClose                          (* updateEnv.Close() *)
| CallNewClusterEnvironment                   (* localEnv.NewClusterEnvironment() *)
| CallGetClientCredentials                    (* libfsm.GetClientCredentials() *)
| CallNewAgentRunner                          (* libfsm.NewAgentRunner(creds) *)
| CallNew                                     (* clusterconfig.New(...) *)
| CallUpdaterClose                            (* updater.Close() *)
| CallExecuteOrForkPhase (params : PhaseParams)
| CallSetPhase (phaseID state : string)
| CallRollbackPhase (params : Params) (timeout : nat)
| CallComplete
| CallActivate.

(** What the environment and the updater answer; a value they return
    beside the error carries nothing these functions read. *)
Record Answers : Type := {
  NewUpdateEnv : error;
  NewClusterEnvironment : error;
  GetClientCredentials : error;
  clusterconfig_New : error;
  executeOrForkPhase : PhaseParams -> error;
  Updater_SetPhase : string -> string -> error;
  Updater_RollbackPhase : Params -> nat -> error;
  Updater_Complete : error;
  Updater_Activate : error
}.

Definition M : Type -> Type := State (list Call).

Definition call (c : Call) : M unit := fun l => (tt, (l ++ [c])%list).

(** [defer cleanup] before the rest of the function: the cleanup runs when
    the rest returns, whatever it returns. *)
Definition defer {A : Type} (cleanup : Call) (rest : M A) : M A :=
  a <- rest ;;
  call cleanup ;;;
  ret a.

(** [if err != nil { return trace.Wrap(err) }] *)
Definition orReturnErr (err : error) (k : M error) : M error :=
  match err with
  | Some e => ret (Some (WrapErr e))
  | None => k
  end.

(** getConfigUpdater: nil when the updater is made. *)
Definition getConfigUpdater (E : Answers) : M error :=
  call CallNewClusterEnvironment ;;;
  orReturnErr (NewClusterEnvironment E) (
  call CallGetClientCredentials ;;;
  orReturnErr (GetClientCredentials E) (
  call CallNewAgentRunner ;;;
  call CallNew ;;;
  orReturnErr (clusterconfig_New E) (
  ret nil))).

Definition executeConfigPhaseForOperation (E : Answers) (params : PhaseParams) : M error :=
  call CallNewUpdateEnv ;;;
  orReturnErr (NewUpdateEnv E) (
  defer CallUpdateEnvClose (
  err <- getConfigUpdater E ;;
  orReturnErr err (
  defer CallUpdaterClose (
  call (CallExecuteOrForkPhase params) ;;;
  ret (executeOrForkPhase E params))))).

Definition setConfigPhaseForOperation (E : Answers) (params : SetPhaseParams) : M error :=
  call CallNewUpdateEnv ;;;
  orReturnErr (NewUpdateEnv E) (
  defer CallUpdateEnvClose (
  err <- getConfigUpdater E ;;
  orReturnErr err (
  defer CallUpdaterClose (
  call (CallSetPhase (SetPhase_PhaseID params) (SetPhase_State params)) ;;;
  ret (Updater_SetPhase E (SetPhase_PhaseID params) (SetPhase_State params)))))).

Definition rollbackConfigPhaseForOperation (E : Answers) (params : PhaseParams) : M error :=
  call CallNewUpdateEnv ;;;
  orReturnErr (NewUpdateEnv E) (
  defer CallUpdateEnvClose (
  err <- getConfigUpdater E ;;
  orReturnErr err (
  defer CallUpdaterClose (
  let fsmParams := {| Params_PhaseID := PhaseID params;
                      Params_Force := Force params;
                      Params_DryRun := DryRun params |} in
  call (CallRollbackPhase fsmParams (Timeout params)) ;;;
  ret (Wrap (Updater_RollbackPhase E fsmParams (Timeout params))))))).

Definition completeConfigPlanForOperation (E : Answers) : M error :=
  call CallNewUpdateEnv ;;;
  orReturnErr (NewUpdateEnv E) (
  defer CallUpdateEnvClose (
  err <- getConfigUpdater E ;;
  orReturnErr err (
  defer CallUpdaterClose (
  call CallComplete ;;;
  orReturnErr (Updater_Complete E) (
  call CallActivate ;;;
  orReturnErr (Updater_Activate E) (
  ret nil)))))).

(** *** Vocabulary of the statements about release *)

Definition isClose (c : Call) : bool :=
  match c with
  | CallUpdateEnvClose | CallUpdaterClose => true
  | _ => false
  end.

Definition isNil (err : error) : bool :=
  match err with
  | None => true
  | Some _ => false
  end.

(** The update environment is made. *)
Definition envOpened (E : Answers) : bool := isNil (NewUpdateEnv E).

(** The updater is made: the environment, the cluster environment, the
    credentials and clusterconfig.New all answer without an error. *)
Definition updaterOpened (E : Answers) : bool :=
  isNil (NewUpdateEnv E) && isNil (NewClusterEnvironment E)
  && isNil (GetClientCredentials E) && isNil (clusterconfig_New E).

(** The calls that release what the run has opened, innermost first. *)
Definition releases (E : Answers) : list Call :=
  (if updaterOpened E then [CallUpdaterClose] else [])
  ++ (if envOpened E then [CallUpdateEnvClose] else []).

(** [released E made]: the calls [made] end with the releases owed, and
    hold no other release. *)
Definition released (E : Answers) (made : list Call) : Prop :=
  exists work,
    made = (work ++ releases E)%list /\
    Forall (fun c => isClose c = false) work.

(** The calls of a run whose work on the updater, once made, is [action]. *)
Definition callsOf (E : Answers) (action : list Call) : list Call :=
  [CallNewUpdateEnv]
  ++ (if isNil (NewUpdateEnv E) then
        [CallNewClusterEnvironment]
        ++ (if isNil (NewClusterEnvironment E) then
              [CallGetClientCredentials]
              ++ (if isNil (GetClientCredentials E) then
                    [CallNewAgentRunner; CallNew]
                    ++ (if isNil (clusterconfig_New E) then action ++ [CallUpdaterClose]
                        else [])
                  else [])
            else [])
        ++ [CallUpdateEnvClose]
      else []).

(** The calls completeConfigPlanForOperation makes on the updater. *)
Definition completion (E : Answers) : list Call :=
  [CallComplete] ++ (if isNil (Updater_Complete E) then [CallActivate] else []).

Definition allFine : Answers :=
  {| NewUpdateEnv := nil;
     NewClusterEnvironment := nil;
     GetClientCredentials := nil;
     clusterconfig_New := nil;
     executeOrForkPhase := fun _ => nil;
     Updater_SetPhase := fun _ _ => nil;
     Updater_RollbackPhase := fun _ _ => nil;
     Updater_Complete := nil;
     Updater_Activate := nil |}.

End cli_phase.

(** ** updateConfig: vocabulary of the statements about its runs *)

Module cli_outcome.
Import trace cli.

Definition isQuery (c : Call) : bool :=
  match c with
  | CallSiteOperator | CallGetLocalSite | CallGetClusterConfiguration _ => true
  | _ => false
  end.

Definition isUpdaterClose (c : Call) : bool :=
  match c with
  | CallUpdaterClose => true
  | _ => false
  end.

Definition isUpdaterRun (c : Call) : bool :=
  match c with
  | CallUpdaterRun => true
  | _ => false
  end.

Definition isNil (err : error) : bool :=
  match err with
  | None => true
  | Some _ => false
  end.

(** The invocation goes ahead: it was confirmed on the command line, or the
    user answers yes at the prompt. *)
Definition goesAhead (X : Imports) (confirmed : bool) : bool :=
  confirmed || match confirm X with
               | Ok true => true
               | _ => false
               end.

(** The run of updateConfig makes the updater: the validation passes, the
    invocation goes ahead, the configuration is marshalled and newUpdater
    answers an updater. *)
Definition updaterMade (X : Imports) (localEnv updateEnv : LocalEnvironment)
  (config : ClusterConfig) (confirmed : bool) (l : list Call) : bool :=
  isNil (fst (validateClusterConfig X localEnv config l))
  && goesAhead X confirmed
  && match libclusterconfig_Marshal X config with
     | Ok configBytes =>
         match newUpdater X localEnv updateEnv
                 {| resource := configBytes; config := config |} with
         | Ok _ => true
         | Failed _ => false
         end
     | Failed _ => false
     end.

(** What is printed and asked before the user's answer is known. *)
Definition prompt (manual confirmed : bool) : list Call :=
  if confirmed then []
  else [Println (if manual then updateConfigBannerManual else updateConfigBanner); CallConfirm].

(** An environment in which the user declines. *)
Definition decliningImports : Imports :=
  {| validate_ClusterConfiguration := validate_ClusterConfiguration sampleImports;
     findLocalServer := findLocalServer sampleImports;
     net_Contains := net_Contains sampleImports;
     fmt_Servers := fmt_Servers sampleImports;
     libclusterconfig_Marshal := libclusterconfig_Marshal sampleImports;
     confirm := Ok false;
     newUpdater := newUpdater sampleImports |}.

(** An environment in which the local node is not among the servers. *)
Definition strangerImports : Imports :=
  {| validate_ClusterConfiguration := validate_ClusterConfiguration sampleImports;
     findLocalServer := fun _ => Failed (Base KOther "no interface matches");
     net_Contains := net_Contains sampleImports;
     fmt_Servers := fmt_Servers sampleImports;
     libclusterconfig_Marshal := libclusterconfig_Marshal sampleImports;
     confirm := confirm sampleImports;
     newUpdater := newUpdater sampleImports |}.

End cli_outcome.

(** * Properties *)

(** ** Errors *)

Module trace_facts.
Import trace.
Local Open Scope list_scope.

Lemma Unwrap_WrapErr (e : Err) : Unwrap (WrapErr e) = Unwrap e.
Proof. destruct e; reflexivity. Qed.

Lemma has_kind_Wrap (k : ErrKind) (err : error) : has_kind k (Wrap err) = has_kind k err.
Proof. destruct err as [e|]; simpl; [rewrite Unwrap_WrapErr|]; reflexivity. Qed.

Lemma NewAggregate_surfaces (errs : list error) (e : Err) :
  In (Some e) errs -> surfaces e (NewAggregate errs).
Proof.
  intros Hin. unfold NewAggregate.
  assert (Hn : In e (nonNils errs)).
  { induction errs as [|[x|] errs IH]; simpl in *.
    - contradiction.
    - destruct Hin as [Hx|Hin]; [left; congruence|right; auto].
    - destruct Hin as [Hx|Hin]; [discriminate|auto]. }
  destruct (nonNils errs) as [|x xs] eqn:E; [contradiction|].
  simpl. apply occurs_trace. eapply occurs_aggregate; [exact Hn|apply occurs_here].
Qed.

End trace_facts.

(** ** The installer's teardown *)

Module install_facts.
Import trace install trace_facts.
Local Open Scope list_scope.

Ltac run_monad := unfold bind, ret, call, get, history, whenErr; simpl.

Lemma Stop_run (c : Stopper) (ctx : Context) (w : World) :
  Stop c ctx w =
    (stopper_answer c ctx (log w), {| this := this w; log := log w ++ [callOf ctx c] |}).
Proof. reflexivity. Qed.

(** The loop calls every handler, first to last, whatever the handlers
    answer, and appends the non-nil answers to the errors it was given. *)
Lemma stopEach_run (ctx : Context) (cs : list Stopper) :
  forall (errors : list error) (w : World),
    stopEach ctx cs errors w =
      (errors ++ failures ctx cs (log w),
       {| this := this w; log := log w ++ map (callOf ctx) cs |}).
Proof.
  induction cs as [|c rest IH]; intros errors w.
  - simpl. unfold ret, failures. simpl. rewrite !app_nil_r. destruct w; reflexivity.
  - simpl. unfold bind at 1. rewrite Stop_run. rewrite IH. simpl.
    rewrite <- app_assoc. simpl. f_equal.
    unfold failures. simpl.
    destruct (stopper_answer c ctx (log w)); simpl.
    + rewrite <- app_assoc. reflexivity.
    + reflexivity.
Qed.

Lemma nonNils_failures (ctx : Context) (cs : list Stopper) (h : list Call) :
  nonNils (failures ctx cs h) = nonNils (answers ctx cs h).
Proof.
  unfold failures. induction (answers ctx cs h) as [|[e|] l IH]; simpl.
  - reflexivity.
  - rewrite IH. reflexivity.
  - exact IH.
Qed.

Lemma NewAggregate_failures (ctx : Context) (cs : list Stopper) (h : list Call) :
  NewAggregate (failures ctx cs h) = NewAggregate (answers ctx cs h).
Proof. unfold NewAggregate. rewrite nonNils_failures. reflexivity. Qed.

Lemma stopStoppers_run (ctx : Context) (w : World) :
  stopStoppers ctx w =
    (NewAggregate (answers ctx (stoppers (this w)) (log w)),
     {| this := this w; log := log w ++ map (callOf ctx) (stoppers (this w)) |}).
Proof.
  unfold stopStoppers. run_monad. rewrite stopEach_run. simpl.
  rewrite NewAggregate_failures. reflexivity.
Qed.

Lemma addStoppers_run (hs : list Stopper) :
  forall w : World,
    log (snd (addStoppers hs w)) = log w /\
    stoppers (this (snd (addStoppers hs w))) = stoppers (this w) ++ hs /\
    aborters (this (snd (addStoppers hs w))) = aborters (this w) /\
    agent (this (snd (addStoppers hs w))) = agent (this w).
Proof.
  induction hs as [|h rest IH]; intros w; simpl.
  - rewrite app_nil_r. auto.
  - unfold bind, addStopper. simpl.
    destruct (IH {| this := {| config := config (this w);
                               stoppers := stoppers (this w) ++ [h];
                               aborters := aborters (this w);
                               agent := agent (this w);
                               agentErrC := agentErrC (this w);
                               doneC := doneC (this w) |};
                    log := log w |}) as (H1 & H2 & H3 & H4).
    simpl in *. rewrite H1, H2, H3, H4, <- app_assoc. auto.
Qed.

Lemma addAborters_run (hs : list Stopper) :
  forall w : World,
    log (snd (addAborters hs w)) = log w /\
    aborters (this (snd (addAborters hs w))) = aborters (this w) ++ hs /\
    stoppers (this (snd (addAborters hs w))) = stoppers (this w) /\
    agent (this (snd (addAborters hs w))) = agent (this w).
Proof.
  induction hs as [|h rest IH]; intros w; simpl.
  - rewrite app_nil_r. auto.
  - unfold bind, addAborter. simpl.
    destruct (IH {| this := {| config := config (this w);
                               stoppers := stoppers (this w);
                               aborters := aborters (this w) ++ [h];
                               agent := agent (this w);
                               agentErrC := agentErrC (this w);
                               doneC := doneC (this w) |};
                    log := log w |}) as (H1 & H2 & H3 & H4).
    simpl in *. rewrite H1, H2, H3, H4, <- app_assoc. auto.
Qed.

Lemma stopWithContext_run (ctx : Context) (w : World) :
  stopWithContext ctx w =
    (Wrap (NewAggregate
             (answers ctx (stoppers (this w))
                (log w ++ [CallCancel] ++ (if agent (this w) then [CallAgentStop ctx] else [])))),
     {| this := this w;
        log := log w ++ [CallCancel]
                 ++ (if agent (this w) then [CallAgentStop ctx] else [])
                 ++ map (callOf ctx) (stoppers (this w))
                 ++ [CallProcessShutdown ctx; CallServerStop ctx] |}).
Proof.
  unfold stopWithContext. run_monad.
  destruct (agent (this w)); run_monad; rewrite stopStoppers_run; simpl;
    rewrite <- !app_assoc; simpl; rewrite ?app_nil_r; reflexivity.
Qed.

Lemma abortWithContext_run (ctx : Context) (w : World) :
  abortWithContext ctx w =
    (NewAggregate (answers ctx (aborters (this w)) (log w ++ [CallCancel])),
     {| this := this w;
        log := log w ++ [CallCancel]
                 ++ map (callOf ctx) (aborters (this w))
                 ++ [CallProcessShutdown ctx; CallServerStop ctx] |}).
Proof.
  unfold abortWithContext. run_monad. rewrite stopEach_run. simpl.
  rewrite NewAggregate_failures, <- !app_assoc. reflexivity.
Qed.

(** C3: the stop path cancels the internal context, stops the local agent
    (when the installer has one), runs the registered stoppers, shuts the
    upstream process down and stops the controller server, in this order;
    the abort path cancels the internal context, runs the registered
    aborters, shuts the upstream process down and stops the controller
    server, in this order.  The stop and abort entry points run these
    paths under the shutdown timeout and then at most log a warning. *)
Theorem stop_and_abort_paths_in_order (ctx : Context) (w : World) :
  log (snd (stopWithContext ctx w)) =
    log w ++ [CallCancel]
          ++ (if agent (this w) then [CallAgentStop ctx] else [])
          ++ map (callOf ctx) (stoppers (this w))
          ++ [CallProcessShutdown ctx; CallServerStop ctx]
  /\ log (snd (abortWithContext ctx w)) =
    log w ++ [CallCancel]
          ++ map (callOf ctx) (aborters (this w))
          ++ [CallProcessShutdown ctx; CallServerStop ctx]
  /\ (exists warning,
        log (snd (stop w)) = log (snd (stopWithContext ShutdownCtx w)) ++ warning /\
        (warning = [] \/ exists e, warning = [LogWarn "Failed to stop." e]))
  /\ (exists warning,
        log (snd (abort w)) = log (snd (abortWithContext ShutdownCtx w)) ++ warning /\
        (warning = [] \/ exists e, warning = [LogWarn "Failed to abort." e])).
Proof.
  rewrite stopWithContext_run, abortWithContext_run. simpl.
  split; [reflexivity|]. split; [reflexivity|]. split.
  - unfold stop. unfold bind at 1. rewrite stopWithContext_run.
    destruct (Wrap _) as [e|]; simpl.
    + exists [LogWarn "Failed to stop." e]. split; [reflexivity|]. right. exists e. reflexivity.
    + exists []. rewrite app_nil_r. split; [reflexivity|]. left. reflexivity.
  - unfold abort. unfold bind at 1. rewrite abortWithContext_run.
    destruct (NewAggregate _) as [e|]; simpl.
    + exists [LogWarn "Failed to abort." e]. split; [reflexivity|]. right. exists e. reflexivity.
    + exists []. rewrite app_nil_r. split; [reflexivity|]. left. reflexivity.
Qed.

(** C4, as the code has it: the stopper registry and the aborter registry
    each invoke their handlers in the order of registration, first
    registered first; every handler is invoked, whatever the earlier ones
    answer; the result is the aggregate of all the errors the handlers
    answered. *)
Theorem handlers_run_in_registration_order (hs : list Stopper) (ctx : Context) (w : World) :
  let ws := snd (addStoppers hs w) in
  let wa := snd (addAborters hs w) in
  stopStoppers ctx ws =
    (NewAggregate (answers ctx (stoppers (this w) ++ hs) (log w)),
     {| this := this ws; log := log w ++ map (callOf ctx) (stoppers (this w) ++ hs) |})
  /\ abortWithContext ctx wa =
    (NewAggregate (answers ctx (aborters (this w) ++ hs) (log w ++ [CallCancel])),
     {| this := this wa;
        log := log w ++ [CallCancel]
                 ++ map (callOf ctx) (aborters (this w) ++ hs)
                 ++ [CallProcessShutdown ctx; CallServerStop ctx] |})
  /\ (forall e, In (Some e) (answers ctx (stoppers (this w) ++ hs) (log w)) ->
                surfaces e (fst (stopStoppers ctx ws)))
  /\ (forall e, In (Some e) (answers ctx (aborters (this w) ++ hs) (log w ++ [CallCancel])) ->
                surfaces e (fst (abortWithContext ctx wa))).
Proof.
  intros ws wa.
  destruct (addStoppers_run hs w) as (Hl & Hs & _).
  destruct (addAborters_run hs w) as (Hl' & Ha & _).
  fold ws in Hl, Hs. fold wa in Hl', Ha.
  rewrite stopStoppers_run, abortWithContext_run, Hl, Hs, Hl', Ha.
  repeat split; simpl; intros e He; apply NewAggregate_surfaces; exact He.
Qed.

(** C4, counterexample: two handlers registered as first, then second, are
    invoked as first, then second, by both registries: not in the reverse
    of the registration order. *)
Lemma handlers_do_not_run_lifo :
  invoked (log (snd (stopStoppers ShutdownCtx
                       (snd (addStoppers [firstHandler; secondHandler] (fresh sampleConfig))))))
    = ["first"; "second"]
  /\ invoked (log (snd (abortWithContext ShutdownCtx
                          (snd (addAborters [firstHandler; secondHandler] (fresh sampleConfig))))))
    = ["first"; "second"]
  /\ invoked (log (snd (stopStoppers ShutdownCtx
                          (snd (addStoppers [firstHandler; secondHandler] (fresh sampleConfig))))))
    <> rev (map stopper_name [firstHandler; secondHandler])
  /\ invoked (log (snd (abortWithContext ShutdownCtx
                          (snd (addAborters [firstHandler; secondHandler] (fresh sampleConfig))))))
    <> rev (map stopper_name [firstHandler; secondHandler]).
Proof.
  split; [reflexivity|]. split; [reflexivity|]. split; vm_compute; discriminate.
Qed.

(** ** Run *)

Lemma Run_result (serverRun : option error) (taken : SelectCase) (w : World) :
  fst (Run serverRun taken w) = selectCase serverRun (this w) taken.
Proof.
  unfold Run. run_monad.
  destruct (selectCase serverRun (this w) taken) as [err|]; [|reflexivity].
  destruct (IsAbortedErr err).
  - destruct (abort _); reflexivity.
  - destruct (stop _); reflexivity.
Qed.

(** C2, as the code has it: Run returns exactly when the server has
    terminated, or the local agent has terminated (with an error or
    without one), or the done channel is closed; the value returned is the
    one the event delivered; and on return it runs the abort path if the
    returned error is abort-class and the stop path otherwise. *)
Theorem Run_returns_and_tears_down (serverRun : option error) (w : World) :
  ((exists taken, fst (Run serverRun taken w) <> None) <->
     (serverRun <> None \/
      (exists err, agentErrC (this w) = Delivered err) \/
      doneC (this w) = ClosedDone))
  /\ (forall taken, fst (Run serverRun taken w) = selectCase serverRun (this w) taken)
  /\ (forall taken,
        match fst (Run serverRun taken w) with
        | Some err =>
            snd (Run serverRun taken w) =
              snd ((if IsAbortedErr err then abort else stop) (snd (call CallServerRun w)))
        | None => snd (Run serverRun taken w) = snd (call CallServerRun w)
        end).
Proof.
  split; [|split].
  - split.
    + intros [taken H]. rewrite Run_result in H.
      destruct taken; simpl in H.
      * left. destruct serverRun; [discriminate|congruence].
      * right. left. destruct (agentErrC (this w)) as [| |err]; try congruence.
        exists err. reflexivity.
      * right. right. destruct (doneC (this w)); congruence.
    + intros [H|[[err H]|H]].
      * exists CaseErrC. rewrite Run_result. simpl.
        destruct serverRun; [discriminate|congruence].
      * exists CaseAgentErrC. rewrite Run_result. simpl. rewrite H. discriminate.
      * exists CaseDoneC. rewrite Run_result. simpl. rewrite H. discriminate.
  - intros taken. apply Run_result.
  - intros taken. rewrite Run_result. unfold Run. run_monad.
    destruct (selectCase serverRun (this w) taken) as [err|]; [|reflexivity].
    destruct (IsAbortedErr err).
    + destruct (abort _); reflexivity.
    + destruct (stop _); reflexivity.
Qed.

(** C2, counterexample: the server is running, the done channel is open and
    the local agent has terminated without an error, so none of the three
    events of the claim has occurred; Run returns all the same, with nil,
    through the stop path. *)
Lemma Run_returns_when_agent_exits_without_error :
  fst (Run None CaseAgentErrC agentExited) = Some nil
  /\ invoked (log (snd (Run None CaseAgentErrC agentExited))) = ["second"]
  /\ ~ ((None : option error) <> None \/
        (exists e, agentErrC (this agentExited) = Delivered (Some e)) \/
        doneC (this agentExited) = ClosedDone).
Proof.
  split; [reflexivity|]. split; [reflexivity|].
  intros [H|[[e H]|H]].
  - apply H. reflexivity.
  - discriminate H.
  - discriminate H.
Qed.

(** ** ExecuteOperation and CompleteOperationAndWait *)

Lemma uploadInstallLog_keeps (w : World) : this (snd (uploadInstallLog w)) = this w.
Proof.
  unfold uploadInstallLog. run_monad.
  destruct (os_Open _); simpl; [reflexivity|].
  destruct (Operator_StreamOperationLogs _); reflexivity.
Qed.

Lemma emitAuditEvents_keeps (w : World) : this (snd (emitAuditEvents w)) = this w.
Proof.
  unfold emitAuditEvents. run_monad.
  destruct (localenv_ClusterOperator _); reflexivity.
Qed.

Lemma completeOperation_config (status : Status) (w : World) :
  config (this (snd (completeOperation status w))) = config (this w).
Proof.
  unfold completeOperation. run_monad.
  destruct (uploadInstallLog w) as [e1 w1] eqn:E1.
  destruct (emitAuditEvents w1) as [e2 w2] eqn:E2. simpl.
  pose proof (uploadInstallLog_keeps w) as H1. rewrite E1 in H1. simpl in H1.
  pose proof (emitAuditEvents_keeps w1) as H2. rewrite E2 in H2. simpl in H2.
  rewrite H2, H1. reflexivity.
Qed.

Lemma appendErr_two (e1 e2 : error) :
  NewAggregate (appendErr (appendErr [] e1) e2) = NewAggregate [e1; e2].
Proof. destruct e1, e2; reflexivity. Qed.

Lemma CompleteOperationAndWait_result (w : World) :
  fst (CompleteOperationAndWait w) =
    NewAggregate [fst (completeOperation StatusCompletedPending w);
                  Wrap (Process_Wait (config (this w)))].
Proof.
  unfold CompleteOperationAndWait. unfold bind at 1.
  pose proof (completeOperation_config StatusCompletedPending w) as Hc.
  destruct (completeOperation StatusCompletedPending w) as [e1 w1]. simpl in Hc |- *.
  unfold wait. run_monad. rewrite stopStoppers_run. simpl.
  rewrite Hc. apply appendErr_two.
Qed.

(** C5, as the code has it: when ExecutePlan fails, ExecuteOperation returns
    the plan error, and an error of the Complete that follows is logged as a
    warning, not returned; CompleteOperationAndWait returns the aggregate of
    the completion error and the wait error, so that both reach the caller. *)
Theorem ExecuteOperation_returns_plan_error (w : World) (machine : FSM) (planErr : Err) :
  isNil (initOperationPlan (config (this w)))
    || IsAlreadyExists (initOperationPlan (config (this w))) = true ->
  FSMFactory_NewFSM (config (this w)) = Ok machine ->
  fsm_ExecutePlan machine = Some planErr ->
  fst (ExecuteOperation w) = Some (WrapErr planErr)
  /\ (forall completeErr,
        fsm_Complete machine (Some planErr) = Some completeErr ->
        In (LogWarn "Failed to complete operation." completeErr)
           (log (snd (ExecuteOperation w))))
  /\ fst (CompleteOperationAndWait w) =
       NewAggregate [fst (completeOperation StatusCompletedPending w);
                     Wrap (Process_Wait (config (this w)))]
  /\ (forall e1 e2,
        fst (completeOperation StatusCompletedPending w) = Some e1 ->
        Process_Wait (config (this w)) = Some e2 ->
        surfaces e1 (fst (CompleteOperationAndWait w)) /\
        surfaces (WrapErr e2) (fst (CompleteOperationAndWait w))).
Proof.
  intros Hinit Hfsm Hplan.
  assert (Hguard : negb (isNil (initOperationPlan (config (this w))))
                   && negb (IsAlreadyExists (initOperationPlan (config (this w)))) = false).
  { destruct (isNil _), (IsAlreadyExists _); simpl in *; congruence. }
  split; [|split; [|split]].
  - unfold ExecuteOperation. run_monad. rewrite Hguard, Hfsm. run_monad.
    rewrite Hplan. simpl.
    destruct (fsm_Complete machine (Some planErr)); reflexivity.
  - intros completeErr Hc. unfold ExecuteOperation. run_monad.
    rewrite Hguard, Hfsm. run_monad. rewrite Hplan. simpl. rewrite Hc. simpl.
    apply in_or_app. right. left. reflexivity.
  - apply CompleteOperationAndWait_result.
  - intros e1 e2 H1 H2. rewrite CompleteOperationAndWait_result, H1, H2.
    split; apply NewAggregate_surfaces; simpl; auto.
Qed.

Lemma ExecuteOperation_returns_plan_error_witness :
  fst (ExecuteOperation (fresh sampleConfig)) = Some (WrapErr planFailed)
  /\ (forall completeErr,
        fsm_Complete failingMachine (Some planFailed) = Some completeErr ->
        In (LogWarn "Failed to complete operation." completeErr)
           (log (snd (ExecuteOperation (fresh sampleConfig)))))
  /\ fst (CompleteOperationAndWait (fresh sampleConfig)) =
       NewAggregate [fst (completeOperation StatusCompletedPending (fresh sampleConfig));
                     Wrap (Process_Wait (config (this (fresh sampleConfig))))]
  /\ (forall e1 e2,
        fst (completeOperation StatusCompletedPending (fresh sampleConfig)) = Some e1 ->
        Process_Wait (config (this (fresh sampleConfig))) = Some e2 ->
        surfaces e1 (fst (CompleteOperationAndWait (fresh sampleConfig))) /\
        surfaces (WrapErr e2) (fst (CompleteOperationAndWait (fresh sampleConfig)))).
Proof.
  apply (ExecuteOperation_returns_plan_error (fresh sampleConfig) failingMachine planFailed);
    reflexivity.
Defined.

(** C5, counterexample: ExecutePlan fails with one error and Complete with
    another; the error ExecuteOperation returns holds the first and not the
    second. *)
Lemma ExecuteOperation_drops_complete_error :
  fsm_ExecutePlan failingMachine = Some planFailed
  /\ fsm_Complete failingMachine (Some planFailed) = Some completeFailed
  /\ fst (ExecuteOperation (fresh sampleConfig)) = Some (TraceErr planFailed)
  /\ ~ (surfaces planFailed (fst (ExecuteOperation (fresh sampleConfig))) /\
        surfaces completeFailed (fst (ExecuteOperation (fresh sampleConfig)))).
Proof.
  repeat split.
  intros [_ H]. simpl in H.
  inversion H as [Heq|r Hr Heq|]; subst.
  inversion Hr.
Qed.

(** C8: ExecuteOperation goes on to build the FSM, and with the FSM built to
    execute the plan and complete the operation, whenever initOperationPlan
    answers nil or an already-exists error; on any other error of
    initOperationPlan it returns that error at once, having done nothing
    else. *)
Theorem ExecuteOperation_already_exists_is_success (w : World) :
  let c := config (this w) in
  if isNil (initOperationPlan c) || IsAlreadyExists (initOperationPlan c) then
    exists rest,
      log (snd (ExecuteOperation w)) = log w ++ [CallInitOperationPlan; CallNewFSM] ++ rest /\
      match FSMFactory_NewFSM c with
      | Ok machine =>
          exists rest',
            rest = [CallExecutePlan InstallerCtx] ++ rest' /\
            In (CallComplete (fsm_ExecutePlan machine)) rest'
      | Failed e => rest = [] /\ fst (ExecuteOperation w) = Some (WrapErr e)
      end
  else
    ExecuteOperation w =
      (Wrap (initOperationPlan c),
       {| this := this w; log := log w ++ [CallInitOperationPlan] |}).
Proof.
  intros c. unfold ExecuteOperation. run_monad. fold c.
  destruct (isNil (initOperationPlan c)), (IsAlreadyExists (initOperationPlan c)); simpl;
    try reflexivity.
  all: destruct (FSMFactory_NewFSM c) as [machine|e]; run_monad.
  all: try (exists []; rewrite <- app_assoc; simpl; repeat split; reflexivity).
  all: destruct (fsm_ExecutePlan machine) as [pe|]; simpl;
    destruct (fsm_Complete machine _) as [ce|]; simpl;
    eexists; rewrite <- ?app_assoc; simpl; (split; [reflexivity|]);
    eexists; (split; [reflexivity|]); simpl; auto.
Qed.

(** ** Execute and the execution token *)

(** C1, the code at the failing schedule: of two concurrent calls, the
    first takes the token and enters its work; the context of the second is
    cancelled while it waits, its wait returns without the token, and it
    enters its work too: both calls are in their phase work at once.  When
    the second call returns, its deferred receive takes the token of the
    first, whose own deferred receive then blocks. *)
Theorem Execute_overlaps_after_cancelled_wait :
  exists s,
    run (initial 2) [(0, SendToken); (1, CancelCtx); (1, CtxDone)] = Some s
    /\ working s = 2
    /\ executeSema s = 1
    /\ map acquired (threads s) = [true; false]
    /\ exists s',
         run s [(1, FinishWork); (1, ReleaseToken); (0, FinishWork)] = Some s'
         /\ executeSema s' = 0
         /\ map pc (threads s') = [AtRelease; Returned]
         /\ step s' 0 ReleaseToken = None.
Proof.
  eexists. split; [reflexivity|]. repeat split.
  eexists. split; [reflexivity|]. repeat split.
Qed.

Lemma setThread_count (f : Thread -> bool) (t : Thread) :
  forall (ts : list Thread) (n : nat) (t0 : Thread),
    nth_error ts n = Some t0 ->
    List.length (filter f (setThread n t ts)) + (if f t0 then 1 else 0) =
    List.length (filter f ts) + (if f t then 1 else 0).
Proof.
  induction ts as [|x ts IH]; intros [|n] t0 H; simpl in H; try discriminate.
  - injection H as ->. simpl. destruct (f t), (f t0); simpl; lia.
  - simpl. specialize (IH n t0 H). destruct (f x); simpl; lia.
Qed.

Lemma setThread_Forall (P : Thread -> Prop) (t : Thread) :
  forall (ts : list Thread) (n : nat),
    Forall P ts -> P t -> Forall P (setThread n t ts).
Proof.
  induction ts as [|x ts IH]; intros n Hts Ht; simpl.
  - destruct n; constructor.
  - inversion Hts; subst. destruct n; constructor; auto.
Qed.

Lemma filter_length_le (f g : Thread -> bool) (ts : list Thread) :
  (forall t, f t = true -> g t = true) ->
  List.length (filter f ts) <= List.length (filter g ts).
Proof.
  intros Hfg. induction ts as [|x ts IH]; simpl; [lia|].
  destruct (f x) eqn:Ef.
  - rewrite (Hfg x Ef). simpl. lia.
  - destruct (g x); simpl; lia.
Qed.

Lemma tokenInvariant_initial (calls : nat) : tokenInvariant (initial calls).
Proof.
  unfold tokenInvariant, initial, executeSemaCap. simpl. repeat split.
  - induction calls; simpl; constructor; auto.
  - induction calls; simpl; auto.
  - lia.
Qed.

Lemma moveTo_invariant (s : Sys) (n : nat) (t : Thread) (tokens : nat) (to : PC)
  (gotToken : bool) :
  nth_error (threads s) n = Some t ->
  tokenInvariant s ->
  tokens + (if inCritical t then 1 else 0) =
    executeSema s + (if inCritical {| pc := to; ctxDone := false; acquired := false |}
                     then 1 else 0) ->
  tokens <= executeSemaCap ->
  tokenInvariant (moveTo s n t tokens to gotToken).
Proof.
  intros Hn (Hctx & Hcount & Hcap) Htokens Hle.
  assert (Ht : ctxDone t = false).
  { rewrite Forall_forall in Hctx. apply Hctx. eapply nth_error_In; eauto. }
  unfold tokenInvariant, moveTo. simpl.
  pose proof (setThread_count inCritical
                {| pc := to; ctxDone := ctxDone t; acquired := acquired t || gotToken |}
                (threads s) n t Hn) as Hc.
  change (inCritical {| pc := to; ctxDone := ctxDone t;
                        acquired := acquired t || gotToken |})
    with (inCritical {| pc := to; ctxDone := false; acquired := false |}) in Hc.
  split; [apply setThread_Forall; simpl; auto|].
  split; [|exact Hle].
  destruct (inCritical t), (inCritical {| pc := to; ctxDone := false; acquired := false |});
    lia.
Qed.

Lemma tokenInvariant_step (s s' : Sys) (n : nat) (m : Move) :
  isCancel m = false -> step s n m = Some s' -> tokenInvariant s -> tokenInvariant s'.
Proof.
  intros Hm Hstep Hinv. unfold step in Hstep.
  destruct (nth_error (threads s) n) as [t|] eqn:Hn; [|discriminate].
  pose proof Hinv as (Hctx & Hcount & Hcap).
  assert (Ht : ctxDone t = false).
  { rewrite Forall_forall in Hctx. apply Hctx. eapply nth_error_In; eauto. }
  assert (Hin : inCritical t = match pc t with AtWork | AtRelease => true | _ => false end)
    by reflexivity.
  unfold executeSemaCap in *.
  destruct m; try discriminate;
    unfold Execute, waitForExecuteToken, releaseExecuteToken in Hstep;
    destruct (pc t) eqn:Hpc; try discriminate.
  - destruct (Nat.ltb (executeSema s) executeSemaCap) eqn:Hlt; [|discriminate].
    apply Nat.ltb_lt in Hlt. unfold executeSemaCap in Hlt.
    injection Hstep as <-.
    apply moveTo_invariant; auto; rewrite ?Hin; unfold executeSemaCap; simpl; lia.
  - rewrite Ht in Hstep. discriminate.
  - injection Hstep as <-.
    apply moveTo_invariant; auto; rewrite ?Hin; unfold executeSemaCap; simpl; lia.
  - destruct (executeSema s) as [|k] eqn:Hk; [discriminate|].
    injection Hstep as <-.
    apply moveTo_invariant; auto; rewrite ?Hin; unfold executeSemaCap; simpl; lia.
Qed.

Lemma tokenInvariant_run (schedule : list (nat * Move)) :
  forall s s', cancels schedule = false -> run s schedule = Some s' ->
               tokenInvariant s -> tokenInvariant s'.
Proof.
  induction schedule as [|[n m] rest IH]; intros s s' Hc Hrun Hinv; simpl in *.
  - injection Hrun as <-. exact Hinv.
  - apply Bool.orb_false_iff in Hc. destruct Hc as [Hm Hrest].
    destruct (step s n m) as [s1|] eqn:Hstep; [|discriminate].
    eapply IH; eauto. eapply tokenInvariant_step; eauto.
Qed.

(** X1: Execute is serial as long as no caller's context is cancelled: from any
    number of concurrent calls on a fresh installer, no schedule without a
    cancellation reaches a state with two calls in their phase work. *)
Theorem Execute_serial_without_cancellation
  (calls : nat) (schedule : list (nat * Move)) (s : Sys) :
  cancels schedule = false ->
  run (initial calls) schedule = Some s ->
  working s <= 1.
Proof.
  intros Hc Hrun.
  destruct (tokenInvariant_run schedule _ _ Hc Hrun (tokenInvariant_initial calls))
    as (_ & Hcount & Hcap).
  unfold working, executeSemaCap in *.
  pose proof (filter_length_le (fun t => pc_eqb (pc t) AtWork) inCritical (threads s)) as Hle.
  assert (List.length (filter (fun t => pc_eqb (pc t) AtWork) (threads s))
          <= List.length (filter inCritical (threads s))).
  { apply Hle. intros t Ht. unfold inCritical. destruct (pc t); simpl in *; congruence. }
  lia.
Qed.

Lemma Execute_serial_without_cancellation_witness :
  working {| executeSema := 1;
             threads := [ {| pc := Returned; ctxDone := false; acquired := true |};
                          {| pc := AtWork; ctxDone := false; acquired := true |} ] |} <= 1.
Proof.
  apply (Execute_serial_without_cancellation 2
           [(0, SendToken); (0, FinishWork); (0, ReleaseToken); (1, SendToken)]);
    reflexivity.
Defined.

End install_facts.

(** ** Cluster-configuration update *)

Module cli_facts.
Import trace cli trace_facts.
Local Open Scope list_scope.

Ltac run_cli := unfold bind, ret, call, orReturn, orReturnErr; simpl.

Lemma append_assoc (a b c : string) : ((a ++ b) ++ c = a ++ (b ++ c))%string.
Proof. induction a as [|x a IH]; simpl; [reflexivity|rewrite IH; reflexivity]. Qed.

Lemma names_middle (before part after : string) :
  names (before ++ part ++ after)%string part.
Proof. exists before, after. reflexivity. Qed.

Lemma serviceCIDRMessage_names (ip cidr : string) :
  names (serviceCIDRMessage ip cidr) cidr /\ names (serviceCIDRMessage ip cidr) ip.
Proof.
  unfold serviceCIDRMessage. split.
  - exists ("The advertise address " ++ ip ++
            " conflicts with the global service network CIDR range ")%string,
           ". Please specify a different service CIDR."%string.
    rewrite !append_assoc. reflexivity.
  - apply names_middle.
Qed.

Lemma podCIDRMessage_names (ip cidr : string) :
  names (podCIDRMessage ip cidr) cidr /\ names (podCIDRMessage ip cidr) ip.
Proof.
  unfold podCIDRMessage. split.
  - exists ("The advertise address " ++ ip ++
            " conflicts with the global pod network CIDR range ")%string,
           ". Please specify a different pod CIDR."%string.
    rewrite !append_assoc. reflexivity.
  - apply names_middle.
Qed.

Lemma eqb_empty_false (s : string) : s <> ""%string -> (s =? "")%string = false.
Proof. intros H. apply String.eqb_neq. exact H. Qed.

(** validateClusterConfig only queries: whatever the operator and the
    checks answer, the calls it makes are appended to the log and none of
    them creates an operation or writes. *)
Lemma validateClusterConfig_queries (X : Imports) (localEnv : LocalEnvironment)
  (update : ClusterConfig) (l : list Call) :
  exists qs,
    snd (validateClusterConfig X localEnv update l) = l ++ qs /\
    Forall (fun c => mutates c = false) qs.
Proof.
  unfold validateClusterConfig. run_cli.
  destruct (SiteOperator localEnv) as [operator|e]; simpl;
    [|exists [CallSiteOperator]; split; [reflexivity|repeat constructor]].
  destruct (GetLocalSite operator) as [cluster|e]; simpl;
    [|exists [CallSiteOperator; CallGetLocalSite]; rewrite <- app_assoc;
      split; [reflexivity|repeat constructor]].
  exists (queries cluster).
  split; [|repeat constructor].
  destruct (GetClusterConfiguration operator (Key cluster)) as [existing|e]; simpl;
    [|rewrite <- !app_assoc; reflexivity].
  destruct (validate_ClusterConfiguration X existing update); simpl;
    [rewrite <- !app_assoc; reflexivity|].
  destruct (findLocalServer X (ClusterState_Servers cluster)) as [server|e]; simpl;
    [|rewrite <- !app_assoc; reflexivity].
  destruct (if negb (ServiceCIDR (GetGlobalConfig update) =? "")%string then _ else _); simpl;
    [rewrite <- !app_assoc; reflexivity|].
  destruct (if negb (PodCIDR (GetGlobalConfig update) =? "")%string then _ else _); simpl;
    rewrite <- !app_assoc; reflexivity.
Qed.

(** What validateClusterConfig answers once the operator has answered, the
    generic validation has passed and the local node is found. *)
Lemma validateClusterConfig_checks (X : Imports) (localEnv : LocalEnvironment)
  (update : ClusterConfig) (operator : Operator) (cluster : Site)
  (existing : ClusterConfig) (server : Server) (l : list Call) :
  SiteOperator localEnv = Ok operator ->
  GetLocalSite operator = Ok cluster ->
  GetClusterConfiguration operator (Key cluster) = Ok existing ->
  validate_ClusterConfiguration X existing update = nil ->
  findLocalServer X (ClusterState_Servers cluster) = Ok server ->
  validateClusterConfig X localEnv update l =
    (let serviceCIDR := ServiceCIDR (GetGlobalConfig update) in
     let podCIDR := PodCIDR (GetGlobalConfig update) in
     let ip := AdvertiseIP server in
     if negb (serviceCIDR =? "")%string && net_Contains X serviceCIDR ip
     then Some (BadParameter (serviceCIDRMessage ip serviceCIDR))
     else if negb (podCIDR =? "")%string && net_Contains X podCIDR ip
          then Some (BadParameter (podCIDRMessage ip podCIDR))
          else nil,
     l ++ queries cluster).
Proof.
  intros Hop Hsite Hcfg Hval Hsrv.
  unfold validateClusterConfig. run_cli.
  rewrite Hop. simpl. rewrite Hsite. simpl. rewrite Hcfg. simpl.
  rewrite Hval. simpl. rewrite Hsrv. simpl. unfold NetworkOverlap, queries.
  rewrite <- !app_assoc. simpl.
  destruct (ServiceCIDR (GetGlobalConfig update) =? "")%string; simpl;
    [|destruct (net_Contains X (ServiceCIDR (GetGlobalConfig update)) (AdvertiseIP server));
      simpl; [reflexivity|]];
    (destruct (PodCIDR (GetGlobalConfig update) =? "")%string; simpl;
     [reflexivity|
      destruct (net_Contains X (PodCIDR (GetGlobalConfig update)) (AdvertiseIP server));
      reflexivity]).
Qed.

(** C6: an update whose service CIDR, or pod CIDR, is set and contains the
    advertise address of the local node is rejected by updateConfig with a
    message that names the conflicting range and the address, whatever the
    manual and confirmed flags; the only calls made are the three queries
    of the validation, so no updater is made, no operation is created and
    nothing is written.  The operator answers, the generic validation of
    the update passes and the local node is found among the servers. *)
Theorem conflicting_CIDR_is_rejected_first
  (X : Imports) (localEnv updateEnv : LocalEnvironment) (update : ClusterConfig)
  (manual confirmed : bool) (operator : Operator) (cluster : Site)
  (existing : ClusterConfig) (server : Server) (l : list Call) :
  SiteOperator localEnv = Ok operator ->
  GetLocalSite operator = Ok cluster ->
  GetClusterConfiguration operator (Key cluster) = Ok existing ->
  validate_ClusterConfiguration X existing update = nil ->
  findLocalServer X (ClusterState_Servers cluster) = Ok server ->
  conflicts X server (ServiceCIDR (GetGlobalConfig update)) \/
  conflicts X server (PodCIDR (GetGlobalConfig update)) ->
  exists cidr msg,
    (cidr = ServiceCIDR (GetGlobalConfig update) \/ cidr = PodCIDR (GetGlobalConfig update))
    /\ conflicts X server cidr
    /\ names msg cidr
    /\ names msg (AdvertiseIP server)
    /\ updateConfig X localEnv updateEnv update manual confirmed l =
         (Some (BadParameter msg), l ++ queries cluster)
    /\ Forall (fun c => mutates c = false) (queries cluster).
Proof.
  intros Hop Hsite Hcfg Hval Hsrv Hconflict.
  pose proof (validateClusterConfig_checks X localEnv update operator cluster existing
                server l Hop Hsite Hcfg Hval Hsrv) as Hv.
  cbv zeta in Hv.
  assert (Hq : Forall (fun c => mutates c = false) (queries cluster))
    by (repeat constructor).
  destruct (negb (ServiceCIDR (GetGlobalConfig update) =? "")%string
            && net_Contains X (ServiceCIDR (GetGlobalConfig update)) (AdvertiseIP server))
    eqn:Hsvc.
  - apply andb_prop in Hsvc. destruct Hsvc as [Hne Hin].
    exists (ServiceCIDR (GetGlobalConfig update)),
           (serviceCIDRMessage (AdvertiseIP server) (ServiceCIDR (GetGlobalConfig update))).
    destruct (serviceCIDRMessage_names (AdvertiseIP server)
                (ServiceCIDR (GetGlobalConfig update))) as [Hn1 Hn2].
    repeat split; auto.
    + intros Hempty. rewrite Hempty in Hne. discriminate.
    + unfold updateConfig. unfold bind at 1. rewrite Hv. reflexivity.
  - destruct Hconflict as [[Hne Hin]|[Hne Hin]].
    + rewrite (eqb_empty_false _ Hne), Hin in Hsvc. discriminate.
    + rewrite (eqb_empty_false _ Hne), Hin in Hv. simpl in Hv.
      exists (PodCIDR (GetGlobalConfig update)),
             (podCIDRMessage (AdvertiseIP server) (PodCIDR (GetGlobalConfig update))).
      destruct (podCIDRMessage_names (AdvertiseIP server)
                  (PodCIDR (GetGlobalConfig update))) as [Hn1 Hn2].
      repeat split; auto.
      unfold updateConfig. unfold bind at 1. rewrite Hv. reflexivity.
Qed.

Lemma conflicting_CIDR_is_rejected_first_witness :
  exists cidr msg,
    (cidr = ServiceCIDR (GetGlobalConfig conflictingUpdate) \/
     cidr = PodCIDR (GetGlobalConfig conflictingUpdate))
    /\ conflicts sampleImports
         {| AdvertiseIP := "10.100.0.5"; Hostname := "node-1" |} cidr
    /\ names msg cidr
    /\ names msg (AdvertiseIP {| AdvertiseIP := "10.100.0.5"; Hostname := "node-1" |})
    /\ updateConfig sampleImports sampleEnv sampleEnv conflictingUpdate false true [] =
         (Some (BadParameter msg), [] ++ queries sampleSite)
    /\ Forall (fun c => mutates c = false) (queries sampleSite).
Proof.
  apply (conflicting_CIDR_is_rejected_first sampleImports sampleEnv sampleEnv
           conflictingUpdate false true sampleOperator sampleSite sampleExisting
           {| AdvertiseIP := "10.100.0.5"; Hostname := "node-1" |} []);
    try reflexivity.
  left. split; [discriminate|reflexivity].
Defined.

(** C7: a confirmed invocation of updateConfig in manual mode (the flag is
    set, or the user answers yes at the prompt), whose validation passes
    and for which newUpdater wires up the updater, makes the updater from
    the initializer holding the marshalled configuration, prints the
    manual-operation banner, releases the updater and returns nil; the
    plan is not run. *)
Theorem manual_updateConfig_creates_and_returns
  (X : Imports) (localEnv updateEnv : LocalEnvironment) (config : ClusterConfig)
  (confirmed : bool) (configBytes : string) (updater : Updater) (l : list Call) :
  fst (validateClusterConfig X localEnv config l) = nil ->
  confirmed = true \/ confirm X = Ok true ->
  libclusterconfig_Marshal X config = Ok configBytes ->
  newUpdater X localEnv updateEnv {| resource := configBytes; config := config |} = Ok updater ->
  exists qs,
    Forall (fun c => mutates c = false) qs
    /\ updateConfig X localEnv updateEnv config true confirmed l =
         (nil,
          l ++ qs
            ++ (if confirmed then [] else [Println updateConfigBannerManual; CallConfirm])
            ++ [CallNewUpdater {| resource := configBytes; config := config |};
                Println updateConfigManualOperationBanner;
                CallUpdaterClose])
    /\ ~ In CallUpdaterRun
           (qs ++ (if confirmed then [] else [Println updateConfigBannerManual; CallConfirm])
               ++ [CallNewUpdater {| resource := configBytes; config := config |};
                   Println updateConfigManualOperationBanner;
                   CallUpdaterClose]).
Proof.
  intros Hvalid Hconfirmed Hmarshal Hnew.
  destruct (validateClusterConfig_queries X localEnv config l) as (qs & Hlog & Hqs).
  exists qs. split; [exact Hqs|]. split.
  - unfold updateConfig. unfold bind at 1.
    destruct (validateClusterConfig X localEnv config l) as [err l1].
    simpl in Hvalid, Hlog. subst err l1. unfold orReturnErr, nil.
    unfold newConfigUpdater. rewrite Hmarshal.
    destruct confirmed; simpl.
    + run_cli. rewrite Hnew. simpl. rewrite <- !app_assoc. reflexivity.
    + destruct Hconfirmed as [Hc|Hc]; [discriminate|].
      run_cli. rewrite Hc. simpl. rewrite Hnew. simpl. rewrite <- !app_assoc. reflexivity.
  - intros Hin. apply in_app_or in Hin. destruct Hin as [Hin|Hin].
    + rewrite Forall_forall in Hqs. specialize (Hqs _ Hin). discriminate.
    + destruct confirmed; simpl in Hin;
        repeat (destruct Hin as [Hin|Hin]; [discriminate|]); exact Hin.
Qed.

Lemma manual_updateConfig_creates_and_returns_witness :
  exists qs,
    Forall (fun c => mutates c = false) qs
    /\ updateConfig sampleImports sampleEnv sampleEnv harmlessUpdate true false [] =
         (nil,
          [] ++ qs
            ++ [Println updateConfigBannerManual; CallConfirm]
            ++ [CallNewUpdater {| resource := "10.200.0.0/16"; config := harmlessUpdate |};
                Println updateConfigManualOperationBanner;
                CallUpdaterClose])
    /\ ~ In CallUpdaterRun
           (qs ++ [Println updateConfigBannerManual; CallConfirm]
               ++ [CallNewUpdater {| resource := "10.200.0.0/16"; config := harmlessUpdate |};
                   Println updateConfigManualOperationBanner;
                   CallUpdaterClose]).
Proof.
  apply (manual_updateConfig_creates_and_returns sampleImports sampleEnv sampleEnv
           harmlessUpdate false "10.200.0.0/16"
           {| Updater_Run := Some (Base KOther "phase failed") |} []).
  - reflexivity.
  - right. reflexivity.
  - reflexivity.
  - reflexivity.
Defined.

(** C9: newOperation asks the operator for the operation.  On success it
    returns the key.  When the operator fails with not-found it returns a
    not-implemented error whose message is the remediation hint; on any
    other failure it returns the operator's error, wrapped, of the same
    class and with the same cause. *)
Theorem newOperation_not_implemented_on_not_found
  (r : configInitializer) (operator : Operator) (cluster : Site) (l : list Call) :
  let req := {| ClusterKey := Key cluster; Config := resource r |} in
  snd (newOperation r operator cluster l) = l ++ [CallCreateUpdateConfigOperation req]
  /\ match CreateUpdateConfigOperation operator req with
     | Ok key => fst (newOperation r operator cluster l) = Ok key
     | Failed err =>
         if IsNotFound (Some err)
         then fst (newOperation r operator cluster l) =
                Failed (TraceErr (Base KNotImplemented notImplementedHint))
         else fst (newOperation r operator cluster l) = Failed (WrapErr err)
              /\ Unwrap (WrapErr err) = Unwrap err
              /\ forall k, has_kind k (Some (WrapErr err)) = has_kind k (Some err)
     end
  /\ IsNotImplemented (Some (TraceErr (Base KNotImplemented notImplementedHint))) = true
  /\ IsNotFound (Some (TraceErr (Base KNotImplemented notImplementedHint))) = false.
Proof.
  intros req. unfold newOperation. fold req. unfold bind, call, ret.
  destruct (CreateUpdateConfigOperation operator req) as [key|err].
  - repeat split.
  - destruct (IsNotFound (Some err)); repeat split.
    + apply Unwrap_WrapErr.
    + intros k. apply (has_kind_Wrap k (Some err)).
Qed.

Lemma extends_refl (l : list Call) : extends l l.
Proof. exists []. rewrite app_nil_r. reflexivity. Qed.

Lemma extends_app (l1 l2 more : list Call) : extends l1 l2 -> extends l1 (l2 ++ more).
Proof. intros [rest ->]. exists (rest ++ more). rewrite app_assoc. reflexivity. Qed.

(** The log of updateConfig opens with the log of its validation. *)
Lemma updateConfig_extends (X : Imports) (localEnv updateEnv : LocalEnvironment)
  (config : ClusterConfig) (manual confirmed : bool) (l : list Call) :
  extends (snd (validateClusterConfig X localEnv config l))
          (snd (updateConfig X localEnv updateEnv config manual confirmed l)).
Proof.
  unfold updateConfig, newConfigUpdater, bind, ret, call, orReturn, orReturnErr.
  destruct (validateClusterConfig X localEnv config l) as [[e|] l1]; simpl.
  - apply extends_refl.
  - destruct confirmed, manual; simpl;
      repeat match goal with
             | |- context [confirm ?a] => destruct (confirm a) as [[|]|]; simpl
             | |- context [libclusterconfig_Marshal ?a ?b] =>
                 destruct (libclusterconfig_Marshal a b); simpl
             | |- context [newUpdater ?a ?b ?c ?d] => destruct (newUpdater a b c d); simpl
             end;
      repeat apply extends_app; apply extends_refl.
Qed.

Lemma updateConfig_validation_failed (X : Imports) (localEnv updateEnv : LocalEnvironment)
  (config : ClusterConfig) (manual confirmed : bool) (l : list Call) (e : Err) :
  fst (validateClusterConfig X localEnv config l) = Some e ->
  updateConfig X localEnv updateEnv config manual confirmed l =
    (Some (WrapErr e), snd (validateClusterConfig X localEnv config l)).
Proof.
  intros H. unfold updateConfig. unfold bind at 1.
  destruct (validateClusterConfig X localEnv config l) as [err l1].
  simpl in H. subst err. reflexivity.
Qed.

(** C10: the initializer's validatePreconditions returns nil on every
    input; the checks of this flavor are those of validateClusterConfig,
    which updateConfig runs first: its calls, queries only, open the log of
    updateConfig, and when it answers an error updateConfig returns that
    error, wrapped, having made no further call, so that an updater is made
    only after the validation has answered nil. *)
Theorem validatePreconditions_checks_nothing :
  (forall r localEnv operator cluster, validatePreconditions r localEnv operator cluster = nil)
  /\ (forall X localEnv updateEnv config manual confirmed l,
        exists qs rest,
          snd (validateClusterConfig X localEnv config l) = l ++ qs
          /\ Forall (fun c => mutates c = false) qs
          /\ snd (updateConfig X localEnv updateEnv config manual confirmed l) =
               snd (validateClusterConfig X localEnv config l) ++ rest
          /\ (fst (validateClusterConfig X localEnv config l) <> nil ->
              rest = [] /\
              fst (updateConfig X localEnv updateEnv config manual confirmed l) =
                Wrap (fst (validateClusterConfig X localEnv config l)))
          /\ (forall init, In (CallNewUpdater init) rest ->
                           fst (validateClusterConfig X localEnv config l) = nil)).
Proof.
  split; [reflexivity|].
  intros X localEnv updateEnv config manual confirmed l.
  destruct (validateClusterConfig_queries X localEnv config l) as (qs & Hlog & Hqs).
  exists qs.
  destruct (fst (validateClusterConfig X localEnv config l)) as [e|] eqn:Hv.
  - exists []. rewrite (updateConfig_validation_failed _ _ _ _ _ _ _ _ Hv). simpl.
    rewrite app_nil_r.
    split; [exact Hlog|]. split; [exact Hqs|]. split; [reflexivity|].
    split; [intros _; split; reflexivity|]. intros init [].
  - destruct (updateConfig_extends X localEnv updateEnv config manual confirmed l)
      as [rest Hrest].
    exists rest.
    split; [exact Hlog|]. split; [exact Hqs|]. split; [exact Hrest|].
    split; [intros H; exfalso; apply H; reflexivity|]. intros init _. reflexivity.
Qed.

End cli_facts.

(** ** More on the installer: teardown on return, completion, the token *)

Module install_more.
Import trace install installer trace_facts install_facts.
Local Open Scope list_scope.

Lemma NewAggregate_nil_iff (errs : list error) :
  NewAggregate errs = None <-> Forall (fun err => err = nil) errs.
Proof.
  unfold NewAggregate. split.
  - intros H. induction errs as [|[e|] errs IH]; simpl in *.
    + constructor.
    + discriminate.
    + constructor; [reflexivity|]. apply IH. exact H.
  - intros H. induction H as [|err errs Herr _ IH]; simpl.
    + reflexivity.
    + subst err. simpl. exact IH.
Qed.

Lemma stop_run (w : World) :
  stop w =
    (tt, {| this := this w;
            log := log (snd (stopWithContext ShutdownCtx w))
                     ++ warningFor "Failed to stop." (fst (stopWithContext ShutdownCtx w)) |}).
Proof.
  unfold stop. unfold bind at 1. rewrite stopWithContext_run. simpl.
  destruct (Wrap _); simpl; [reflexivity|]. rewrite app_nil_r. reflexivity.
Qed.

Lemma abort_run (w : World) :
  abort w =
    (tt, {| this := this w;
            log := log (snd (abortWithContext ShutdownCtx w))
                     ++ warningFor "Failed to abort." (fst (abortWithContext ShutdownCtx w)) |}).
Proof.
  unfold abort. unfold bind at 1. rewrite abortWithContext_run. simpl.
  destruct (NewAggregate _); simpl; [reflexivity|]. rewrite app_nil_r. reflexivity.
Qed.



(** X3: the stop and abort entry points log their warning exactly when a
    handler of their registry answered an error: with no failing handler
    the log ends with the stop of the controller server, and every error a
    handler answered is held by the error the warning carries. *)
Theorem teardown_warns_exactly_on_failure (w : World) :
  let aborted := answers ShutdownCtx (aborters (this w)) (log w ++ [CallCancel]) in
  let stopped := answers ShutdownCtx (stoppers (this w))
                   (log w ++ [CallCancel] ++ agentStop (this w) ShutdownCtx) in
  (log (snd (abort w)) = log (snd (abortWithContext ShutdownCtx w))
     <-> Forall (fun err => err = nil) aborted)
  /\ (log (snd (stop w)) = log (snd (stopWithContext ShutdownCtx w))
     <-> Forall (fun err => err = nil) stopped)
  /\ (forall e, In (Some e) aborted ->
        exists all, log (snd (abort w)) =
                      log (snd (abortWithContext ShutdownCtx w)) ++ [LogWarn "Failed to abort." all]
                    /\ occurs e all)
  /\ (forall e, In (Some e) stopped ->
        exists all, log (snd (stop w)) =
                      log (snd (stopWithContext ShutdownCtx w)) ++ [LogWarn "Failed to stop." all]
                    /\ occurs e all).
Proof.
  intros aborted stopped.
  rewrite stop_run, abort_run. simpl.
  assert (Hfst_a : fst (abortWithContext ShutdownCtx w) = NewAggregate aborted)
    by (rewrite abortWithContext_run; reflexivity).
  assert (Hfst_s : fst (stopWithContext ShutdownCtx w) = Wrap (NewAggregate stopped))
    by (rewrite stopWithContext_run; reflexivity).
  rewrite Hfst_a, Hfst_s.
  assert (Hnil : forall (l x : list Call), l ++ x = l <-> x = []).
  { intros l x. split; intros H.
    - rewrite <- (app_nil_r l) in H at 2. apply app_inv_head in H. exact H.
    - subst x. apply app_nil_r. }
  split; [|split; [|split]].
  - rewrite Hnil, <- NewAggregate_nil_iff.
    destruct (NewAggregate aborted); simpl; split; congruence.
  - rewrite Hnil, <- NewAggregate_nil_iff.
    destruct (NewAggregate stopped); simpl; split; congruence.
  - intros e He. pose proof (NewAggregate_surfaces aborted e He) as Hs.
    destruct (NewAggregate aborted) as [all|]; simpl in *; [|contradiction].
    exists all. split; [reflexivity|exact Hs].
  - intros e He. pose proof (NewAggregate_surfaces stopped e He) as Hs.
    unfold NewAggregate in *.
    destruct (nonNils stopped) as [|x xs]; simpl in *; [contradiction|].
    eexists. split; [reflexivity|exact Hs].
Qed.

(** X4: ExecuteOperation returns nil exactly when the plan is there
    (initOperationPlan answered nil or already-exists), the FSM is built,
    the plan executes without an error and the operation completes without
    an error. *)
Theorem ExecuteOperation_succeeds_iff (w : World) :
  fst (ExecuteOperation w) = nil <->
  (isNil (initOperationPlan (config (this w)))
     || IsAlreadyExists (initOperationPlan (config (this w))) = true
   /\ exists machine,
        FSMFactory_NewFSM (config (this w)) = Ok machine
        /\ fsm_ExecutePlan machine = nil
        /\ fsm_Complete machine nil = nil).
Proof.
  unfold ExecuteOperation. run_monad.
  destruct (isNil (initOperationPlan (config (this w)))
            || IsAlreadyExists (initOperationPlan (config (this w)))) eqn:Hinit.
  - assert (Hguard : negb (isNil (initOperationPlan (config (this w))))
                     && negb (IsAlreadyExists (initOperationPlan (config (this w)))) = false)
      by (destruct (isNil _), (IsAlreadyExists _); simpl in *; congruence).
    rewrite Hguard. run_monad.
    destruct (FSMFactory_NewFSM (config (this w))) as [machine|e]; run_monad.
    + destruct (fsm_ExecutePlan machine) as [pe|] eqn:Hp; simpl;
        destruct (fsm_Complete machine _) as [ce|] eqn:Hc; simpl;
        (split; [intros H; try discriminate H
                |intros (_ & m & Hm & Hpm & Hcm); injection Hm as <-;
                 unfold nil in *; try congruence; reflexivity]).
      split; [reflexivity|]. exists machine. auto.
    + split; [discriminate|]. intros (_ & m & Hm & _). discriminate.
  - assert (Hguard : negb (isNil (initOperationPlan (config (this w))))
                     && negb (IsAlreadyExists (initOperationPlan (config (this w)))) = true)
      by (destruct (isNil _), (IsAlreadyExists _); simpl in *; congruence).
    rewrite Hguard. simpl.
    destruct (initOperationPlan (config (this w))); simpl in *; [|discriminate].
    split; [discriminate|]. intros [H _]. discriminate.
Qed.

Lemma completeOperation_run (status : Status) (w : World) :
  exists made,
    snd (completeOperation status w) =
      {| this := {| config := config (this w);
                    stoppers := stoppers (this w) ++ [stopAgents (config (this w))];
                    aborters := aborters (this w);
                    agent := agent (this w);
                    agentErrC := agentErrC (this w);
                    doneC := doneC (this w) |};
         log := log w ++ made ++ [CallSend None; CallSend (Some status)] |}
    /\ fst (completeOperation status w) =
         NewAggregate [match os_Open (config (this w)) with
                       | Some e => Some (WrapErr e)
                       | None => Wrap (Operator_StreamOperationLogs (config (this w)))
                       end;
                       Wrap (localenv_ClusterOperator (config (this w)))].
Proof.
  exists ([CallOpenUserLog]
          ++ match os_Open (config (this w)) with
             | Some _ => []
             | None => [CallStreamOperationLogs]
             end
          ++ [CallClusterOperator]
          ++ match localenv_ClusterOperator (config (this w)) with
             | Some e => [LogWarn "Failed to create cluster operator." e]
             | None => [CallEmitEvents; CallEmitEvents]
             end).
  unfold completeOperation, uploadInstallLog, emitAuditEvents, addStopper, stopAgents.
  run_monad.
  destruct (os_Open (config (this w))) as [oe|]; simpl;
    [|destruct (Operator_StreamOperationLogs (config (this w))) as [se|]; simpl];
    (destruct (localenv_ClusterOperator (config (this w))) as [ce|]; simpl;
     rewrite <- ?app_assoc; simpl; split; reflexivity).
Qed.


(** X6: running the stoppers does not take them off the registry.  After
    CompleteOperationAndWait the registry holds the earlier stoppers and the
    stopper of the agents; the wait has invoked each of them with the
    installer's context, and the stop path that follows invokes each of
    them once more, with the context it is given. *)
Theorem stoppers_run_again_on_stop (ctx : Context) (w : World) :
  let handlers := stoppers (this w) ++ [stopAgents (config (this w))] in
  let w1 := snd (CompleteOperationAndWait w) in
  stoppers (this w1) = handlers
  /\ (exists made,
        log w1 = log w ++ made ++ map (callOf InstallerCtx) handlers ++ [CallProcessWait])
  /\ log (snd (stopWithContext ctx w1)) =
       log w1 ++ [CallCancel] ++ agentStop (this w) ctx
             ++ map (callOf ctx) handlers
             ++ [CallProcessShutdown ctx; CallServerStop ctx].
Proof.
  intros handlers w1.
  assert (H1 : exists made,
             w1 = {| this := {| config := config (this w);
                                stoppers := handlers;
                                aborters := aborters (this w);
                                agent := agent (this w);
                                agentErrC := agentErrC (this w);
                                doneC := doneC (this w) |};
                     log := log w ++ made ++ map (callOf InstallerCtx) handlers
                                  ++ [CallProcessWait] |}).
  { unfold w1, CompleteOperationAndWait. unfold bind at 1.
    destruct (completeOperation_run StatusCompletedPending w) as (made & Hw & _).
    destruct (completeOperation StatusCompletedPending w) as [e1 w2]. simpl in Hw. subst w2.
    unfold wait. run_monad. rewrite stopStoppers_run. simpl.
    exists (made ++ [CallSend None; CallSend (Some StatusCompletedPending)]).
    fold handlers. repeat (rewrite <- app_assoc; simpl). reflexivity. }
  destruct H1 as (made & Hw1).
  split; [rewrite Hw1; reflexivity|].
  split; [exists made; rewrite Hw1; reflexivity|].
  rewrite stopWithContext_run. rewrite Hw1. simpl. reflexivity.
Qed.

Lemma filter_nonempty (f : Thread -> bool) :
  forall (ts : list Thread) (n : nat) (t : Thread),
    nth_error ts n = Some t -> f t = true -> 1 <= List.length (filter f ts).
Proof.
  induction ts as [|x ts IH]; intros [|n] t Hn Hf; simpl in Hn; try discriminate.
  - injection Hn as ->. simpl. rewrite Hf. simpl. lia.
  - simpl. specialize (IH n t Hn Hf). destruct (f x); simpl; lia.
Qed.

(** X7: as long as no caller's context is cancelled, the deferred
    releaseExecuteToken never blocks: a call that has finished its work
    finds a token in the channel and returns. *)
Theorem release_never_blocks_without_cancellation
  (calls : nat) (schedule : list (nat * Move)) (s : Sys) (n : nat) (t : Thread) :
  cancels schedule = false ->
  run (initial calls) schedule = Some s ->
  nth_error (threads s) n = Some t ->
  pc t = AtRelease ->
  exists s', step s n ReleaseToken = Some s'
             /\ executeSema s' = 0
             /\ nth_error (threads s') n =
                  Some {| pc := Returned; ctxDone := ctxDone t; acquired := acquired t |}.
Proof.
  intros Hc Hrun Hn Hpc.
  destruct (tokenInvariant_run schedule _ _ Hc Hrun (tokenInvariant_initial calls))
    as (_ & Hcount & Hcap).
  assert (Hin : inCritical t = true) by (unfold inCritical; rewrite Hpc; reflexivity).
  pose proof (filter_nonempty inCritical (threads s) n t Hn Hin) as Hge.
  unfold executeSemaCap in Hcap.
  unfold step. rewrite Hn. unfold Execute. rewrite Hpc. unfold releaseExecuteToken.
  destruct (executeSema s) as [|k] eqn:Hk; [lia|].
  eexists. split; [reflexivity|]. simpl. split; [lia|].
  rewrite Bool.orb_false_r.
  clear - Hn. revert n Hn. induction (threads s) as [|x ts IH]; intros [|n] Hn;
    simpl in *; try discriminate; auto.
Qed.

Lemma release_never_blocks_without_cancellation_witness :
  exists s',
    step {| executeSema := 1;
            threads := [ {| pc := AtRelease; ctxDone := false; acquired := true |};
                         {| pc := AtWait; ctxDone := false; acquired := false |} ] |}
         0 ReleaseToken = Some s'
    /\ executeSema s' = 0
    /\ nth_error (threads s') 0 =
         Some {| pc := Returned;
                 ctxDone := ctxDone {| pc := AtRelease; ctxDone := false; acquired := true |};
                 acquired := acquired {| pc := AtRelease; ctxDone := false; acquired := true |} |}.
Proof.
  apply (release_never_blocks_without_cancellation 2
           [(0, SendToken); (0, FinishWork)]
           {| executeSema := 1;
              threads := [ {| pc := AtRelease; ctxDone := false; acquired := true |};
                           {| pc := AtWait; ctxDone := false; acquired := false |} ] |}
           0 {| pc := AtRelease; ctxDone := false; acquired := true |});
    reflexivity.
Defined.

Lemma critical_has_token (s : Sys) (n : nat) (t : Thread) :
  tokenInvariant s -> nth_error (threads s) n = Some t -> inCritical t = true ->
  exists k, executeSema s = S k.
Proof.
  intros (_ & Hcount & _) Hn Hin.
  pose proof (filter_nonempty inCritical (threads s) n t Hn Hin) as Hge.
  destruct (executeSema s) as [|k]; [lia|]. exists k. reflexivity.
Qed.

Lemma filter_member (f : Thread -> bool) :
  forall ts : list Thread,
    1 <= List.length (filter f ts) ->
    exists n t, nth_error ts n = Some t /\ f t = true.
Proof.
  induction ts as [|x ts IH]; simpl; intros H; [lia|].
  destruct (f x) eqn:Hf.
  - exists 0, x. auto.
  - destruct (IH H) as (n & t & Hn & Ht). exists (S n), t. auto.
Qed.

Lemma returned_or_not (ts : list Thread) :
  Forall (fun t => pc t = Returned) ts \/
  exists n t, nth_error ts n = Some t /\ pc t <> Returned.
Proof.
  induction ts as [|x ts IH].
  - left. constructor.
  - destruct (pc x) eqn:Hx;
      try (right; exists 0, x; split; [reflexivity|rewrite Hx; discriminate]).
    destruct IH as [IH|(n & t & Hn & Ht)].
    + left. constructor; assumption.
    + right. exists (S n), t. auto.
Qed.

(** A call in its critical part can always make its next move. *)
Lemma critical_moves (s : Sys) (n : nat) (t : Thread) :
  tokenInvariant s -> nth_error (threads s) n = Some t -> inCritical t = true ->
  exists m s', isCancel m = false /\ step s n m = Some s'.
Proof.
  intros Hinv Hn Hin.
  destruct (critical_has_token s n t Hinv Hn Hin) as [k Hk].
  unfold inCritical in Hin. destruct (pc t) eqn:Hpc; try discriminate.
  - exists FinishWork. eexists. split; [reflexivity|].
    unfold step. rewrite Hn. unfold Execute. rewrite Hpc. reflexivity.
  - exists ReleaseToken. eexists. split; [reflexivity|].
    unfold step. rewrite Hn. unfold Execute. rewrite Hpc.
    unfold releaseExecuteToken. rewrite Hk. reflexivity.
Qed.

(** X8: without a cancellation the token never strands a call: in every
    state that concurrent calls of Execute reach, either every call has
    returned or some call can make a move. *)
Theorem no_deadlock_without_cancellation
  (calls : nat) (schedule : list (nat * Move)) (s : Sys) :
  cancels schedule = false ->
  run (initial calls) schedule = Some s ->
  allReturned s \/ exists n m s', isCancel m = false /\ step s n m = Some s'.
Proof.
  intros Hc Hrun.
  pose proof (tokenInvariant_run schedule _ _ Hc Hrun (tokenInvariant_initial calls)) as Hinv.
  destruct (returned_or_not (threads s)) as [Hall|(n & t & Hn & Ht)]; [left; exact Hall|].
  right.
  destruct (inCritical t) eqn:Hin.
  - destruct (critical_moves s n t Hinv Hn Hin) as (m & s' & Hm & Hs). exists n, m, s'. auto.
  - assert (Hpc : pc t = AtWait).
    { unfold inCritical in Hin. destruct (pc t); try discriminate; congruence. }
    destruct (executeSema s) as [|k] eqn:Hk.
    + exists n, SendToken. eexists. split; [reflexivity|].
      unfold step. rewrite Hn. unfold Execute. rewrite Hpc.
      unfold waitForExecuteToken. rewrite Hk. reflexivity.
    + destruct Hinv as (Hctx & Hcount & Hcap).
      assert (Hge : 1 <= List.length (filter inCritical (threads s))) by lia.
      destruct (filter_member inCritical (threads s) Hge) as (n' & t' & Hn' & Hin').
      destruct (critical_moves s n' t' (conj Hctx (conj Hcount Hcap)) Hn' Hin')
        as (m & s' & Hm & Hs).
      exists n', m, s'. auto.
Qed.

Lemma no_deadlock_without_cancellation_witness :
  allReturned {| executeSema := 1;
                 threads := [ {| pc := AtWork; ctxDone := false; acquired := true |};
                              {| pc := AtWait; ctxDone := false; acquired := false |} ] |}
  \/ exists n m s',
       isCancel m = false /\
       step {| executeSema := 1;
               threads := [ {| pc := AtWork; ctxDone := false; acquired := true |};
                            {| pc := AtWait; ctxDone := false; acquired := false |} ] |}
            n m = Some s'.
Proof.
  apply (no_deadlock_without_cancellation 2 [(0, SendToken)]); reflexivity.
Defined.

End install_more.

(** ** Construction and agent start-up *)

Module installer_facts.
Import trace install installer trace_facts install_facts.
Local Open Scope list_scope.

Ltac run_installer :=
  unfold bind, ret, call, get, history, whenErr, setAgentErrC, addAborter; simpl.

Lemma startAgent_run (S : Services) (op : SiteOperation) (w : World) :
  startAgent S op w =
    if negb (agent (this w)) then (nil, w)
    else match InstallExpand_Agents op (Role S) with
         | None => (Some (BadParameter ("no agent profile for role " ++ fmt_q S (Role S))%string), w)
         | Some profile =>
             match getTokenFromURL S (AgentURL profile) with
             | Failed e => (Some (WrapErr e), w)
             | Ok _ => (nil, {| this := {| config := config (this w);
                                           stoppers := stoppers (this w);
                                           aborters := aborters (this w);
                                           agent := agent (this w);
                                           agentErrC := EmptyErrChan;
                                           doneC := doneC (this w) |};
                                log := log w |})
             end
         end.
Proof.
  unfold startAgent. run_installer.
  destruct (agent (this w)) eqn:Ha; simpl; [|reflexivity].
  destruct (InstallExpand_Agents op (Role S)) as [profile|]; [|reflexivity].
  destruct (getTokenFromURL S (AgentURL profile)); rewrite ?Ha; reflexivity.
Qed.

(** X9: on an installer with a local agent, startAgent succeeds exactly
    when the operation has a profile for the installer's role and the
    profile's URL yields a token.  It then makes agentErrC, empty, and
    changes nothing else, so that Run cannot yet return through the agent;
    when it fails it leaves the installer as it was, and a role without a
    profile is reported as a bad parameter. *)
Theorem startAgent_needs_profile_and_token (S : Services) (op : SiteOperation) (w : World) :
  agent (this w) = true ->
  (fst (startAgent S op w) = nil <-> agentStartable S op = true)
  /\ (agentStartable S op = true ->
      snd (startAgent S op w) =
        {| this := {| config := config (this w); stoppers := stoppers (this w);
                      aborters := aborters (this w); agent := true;
                      agentErrC := EmptyErrChan; doneC := doneC (this w) |};
           log := log w |}
      /\ forall serverRun,
           fst (Run serverRun CaseAgentErrC (snd (startAgent S op w))) = None)
  /\ (agentStartable S op = false -> snd (startAgent S op w) = w)
  /\ (InstallExpand_Agents op (Role S) = None ->
      has_kind KBadParameter (fst (startAgent S op w)) = true).
Proof.
  intros Hagent.
  assert (HR : forall w1 serverRun,
             agentErrC (this w1) = EmptyErrChan -> fst (Run serverRun CaseAgentErrC w1) = None).
  { intros w1 serverRun H. rewrite Run_result. simpl. rewrite H. reflexivity. }
  rewrite startAgent_run, Hagent. cbn [negb]. unfold agentStartable.
  destruct (InstallExpand_Agents op (Role S)) as [profile|]; cbn [isOk fst snd].
  - destruct (getTokenFromURL S (AgentURL profile)) as [token|e]; cbn [isOk fst snd].
    + split; [split; reflexivity|]. split; [|split; [discriminate|discriminate]].
      intros _. split; [reflexivity|]. intros serverRun. apply HR. reflexivity.
    + split; [split; discriminate|]. split; [discriminate|].
      split; [reflexivity|discriminate].
  - split; [split; discriminate|]. split; [discriminate|].
    split; reflexivity.
Qed.

Lemma startAgent_needs_profile_and_token_witness :
  (fst (startAgent sampleServices sampleOperation withAgent) = nil
     <-> agentStartable sampleServices sampleOperation = true)
  /\ (agentStartable sampleServices sampleOperation = true ->
      snd (startAgent sampleServices sampleOperation withAgent) =
        {| this := {| config := config (this withAgent); stoppers := stoppers (this withAgent);
                      aborters := aborters (this withAgent); agent := true;
                      agentErrC := EmptyErrChan; doneC := doneC (this withAgent) |};
           log := log withAgent |}
      /\ forall serverRun,
           fst (Run serverRun CaseAgentErrC
                  (snd (startAgent sampleServices sampleOperation withAgent))) = None)
  /\ (agentStartable sampleServices sampleOperation = false ->
      snd (startAgent sampleServices sampleOperation withAgent) = withAgent)
  /\ (InstallExpand_Agents sampleOperation (Role sampleServices) = None ->
      has_kind KBadParameter (fst (startAgent sampleServices sampleOperation withAgent)) = true).
Proof.
  apply (startAgent_needs_profile_and_token sampleServices sampleOperation withAgent).
  reflexivity.
Defined.

(** X10: an installer without a local agent never starts one: startAgent
    and maybeStartAgent return nil and change nothing, whatever the
    operation holds, and as agentErrC stays nil Run never returns through
    the agent's channel. *)
Theorem no_local_agent_nothing_started
  (S : Services) (op : SiteOperation) (w : World) (serverRun : option error) :
  agent (this w) = false ->
  agentErrC (this w) = NilErrChan ->
  startAgent S op w = (nil, w)
  /\ maybeStartAgent S w = (nil, w)
  /\ fst (Run serverRun CaseAgentErrC (snd (startAgent S op w))) = None
  /\ ((exists taken, fst (Run serverRun taken (snd (startAgent S op w))) <> None)
      <-> serverRun <> None \/ doneC (this w) = ClosedDone).
Proof.
  intros Hagent Hchan.
  assert (Hstart : forall o, startAgent S o w = (nil, w))
    by (intros o; rewrite startAgent_run, Hagent; reflexivity).
  rewrite Hstart. simpl.
  split; [reflexivity|]. split; [|split].
  - unfold maybeStartAgent. destruct (GetWizardOperation S) as [o|e]; [|reflexivity].
    unfold bind. rewrite Hstart. reflexivity.
  - rewrite Run_result. simpl. rewrite Hchan. reflexivity.
  - split.
    + intros [taken H]. rewrite Run_result in H. destruct taken; simpl in H.
      * left. destruct serverRun; [discriminate|congruence].
      * rewrite Hchan in H. congruence.
      * right. destruct (doneC (this w)); congruence.
    + intros [H|H].
      * exists CaseErrC. rewrite Run_result. simpl. destruct serverRun; [discriminate|congruence].
      * exists CaseDoneC. rewrite Run_result. simpl. rewrite H. discriminate.
Qed.

Lemma no_local_agent_nothing_started_witness :
  startAgent sampleServices sampleOperation (fresh sampleConfig) = (nil, fresh sampleConfig)
  /\ maybeStartAgent sampleServices (fresh sampleConfig) = (nil, fresh sampleConfig)
  /\ fst (Run (Some nil) CaseAgentErrC
            (snd (startAgent sampleServices sampleOperation (fresh sampleConfig)))) = None
  /\ ((exists taken,
         fst (Run (Some nil) taken
                (snd (startAgent sampleServices sampleOperation (fresh sampleConfig)))) <> None)
      <-> Some nil <> None \/ doneC (this (fresh sampleConfig)) = ClosedDone).
Proof.
  apply (no_local_agent_nothing_started sampleServices sampleOperation (fresh sampleConfig)
           (Some nil)); reflexivity.
Defined.

(** X11: New returns an installer exactly when the configuration checks
    pass and, if a local agent is configured, the agent is made and the
    agent of the wizard operation, if that operation can be queried, can be
    started; a wizard operation that cannot be queried is no failure.  The
    installer returned holds the configuration, no teardown handler and no
    done channel, and its agentErrC is made exactly when a local agent was
    started for the wizard operation. *)
Theorem New_succeeds_iff (S : Services) (c : RuntimeConfig) :
  isOk (New S c) =
    isNil (checkAndSetDefaults S)
    && (negb (LocalAgent S)
        || (isNil (newAgent S)
            && match GetWizardOperation S with
               | Ok op => agentStartable S op
               | Failed _ => true
               end))
  /\ forall i,
       New S c = Ok i ->
       config i = c /\ stoppers i = [] /\ aborters i = [] /\ agent i = LocalAgent S
       /\ doneC i = NilDone
       /\ (agentErrC i = EmptyErrChan <->
           LocalAgent S = true /\ exists op, GetWizardOperation S = Ok op)
       /\ (agentErrC i = EmptyErrChan \/ agentErrC i = NilErrChan).
Proof.
  unfold New, maybeStartAgent.
  destruct (checkAndSetDefaults S) as [e|]; simpl; [split; [reflexivity|discriminate]|].
  destruct (LocalAgent S) eqn:Hlocal; cbv beta iota.
  - destruct (newAgent S) as [e|]; cbn [isNil andb orb negb isOk];
      [split; [reflexivity|discriminate]|].
    destruct (GetWizardOperation S) as [op|e] eqn:Hop; cbv beta iota.
    + unfold bind. rewrite startAgent_run. cbn [agent this negb]. unfold agentStartable.
      destruct (InstallExpand_Agents op (Role S)) as [profile|]; simpl;
        [|split; [reflexivity|discriminate]].
      destruct (getTokenFromURL S (AgentURL profile)) as [token|e]; simpl;
        [|split; [reflexivity|discriminate]].
      split; [reflexivity|]. intros i H. injection H as <-. simpl.
      repeat split; auto. exists op. reflexivity.
    + split; [reflexivity|]. intros i H. injection H as <-. simpl.
      repeat split; auto; try discriminate.
      intros (_ & op & H). discriminate.
  - destruct (GetWizardOperation S) as [op|e] eqn:Hop; cbv beta iota.
    + unfold bind. rewrite startAgent_run. simpl.
      split; [reflexivity|]. intros i H. injection H as <-. simpl.
      repeat split; auto; try discriminate. intros (H & _). discriminate.
    + split; [reflexivity|]. intros i H. injection H as <-. simpl.
      repeat split; auto; try discriminate. intros (H & _). discriminate.
Qed.

Lemma NotifyOperationAvailable_run (S : Services) (op : SiteOperation) (w : World) :
  NotifyOperationAvailable S op w =
    match startAgent S op w with
    | (Some e, w1) => (Some (WrapErr e), w1)
    | (None, w1) =>
        (let admin := CreateClusterAdminAgent S (SiteDomain op) in
         if negb (isNil admin) && negb (IsAlreadyExists admin) then Wrap (Wrap admin) else nil,
         {| this := {| config := config (this w1); stoppers := stoppers (this w1);
                       aborters := aborters (this w1) ++ [abortAgents S];
                       agent := agent (this w1); agentErrC := agentErrC (this w1);
                       doneC := doneC (this w1) |};
            log := log w1 |})
    end.
Proof.
  unfold NotifyOperationAvailable. unfold bind at 1.
  destruct (startAgent S op w) as [[e|] w1]; [reflexivity|].
  unfold upsertAdminAgent. run_installer.
  destruct (negb (isNil _) && negb (IsAlreadyExists _)); simpl; [|reflexivity].
  destruct (CreateClusterAdminAgent S (SiteDomain op)); reflexivity.
Qed.

Lemma startAgent_frame (S : Services) (op : SiteOperation) (w : World) :
  stoppers (this (snd (startAgent S op w))) = stoppers (this w)
  /\ aborters (this (snd (startAgent S op w))) = aborters (this w)
  /\ log (snd (startAgent S op w)) = log w
  /\ (fst (startAgent S op w) <> nil -> snd (startAgent S op w) = w).
Proof.
  rewrite startAgent_run.
  destruct (negb (agent (this w))); simpl; [repeat split; auto|].
  destruct (InstallExpand_Agents op (Role S)) as [profile|]; simpl; [|repeat split; auto].
  destruct (getTokenFromURL S (AgentURL profile)); simpl; repeat split; auto.
  intros H. exfalso. apply H. reflexivity.
Qed.

(** X12: NotifyOperationAvailable registers the handler that aborts the
    agents exactly when the start of the local agent did not fail, after
    the aborters registered before and without touching the stoppers; it
    registers it even when the creation of the admin agent then fails,
    where an admin agent that exists already is no failure; and the abort
    path that follows invokes the handler, last of the aborters.  When the
    start of the agent fails nothing is registered and the installer is as
    it was. *)
Theorem NotifyOperationAvailable_registers_abort
  (S : Services) (op : SiteOperation) (ctx : Context) (w : World) :
  let w1 := snd (NotifyOperationAvailable S op w) in
  let admin := CreateClusterAdminAgent S (SiteDomain op) in
  match fst (startAgent S op w) with
  | Some e => NotifyOperationAvailable S op w = (Some (WrapErr e), w)
  | None =>
      aborters (this w1) = aborters (this w) ++ [abortAgents S]
      /\ stoppers (this w1) = stoppers (this w)
      /\ (fst (NotifyOperationAvailable S op w) = nil <->
          admin = nil \/ IsAlreadyExists admin = true)
      /\ log (snd (abortWithContext ctx w1)) =
           log w ++ [CallCancel] ++ map (callOf ctx) (aborters (this w))
                 ++ [CallStop "AbortAgents" ctx;
                     CallProcessShutdown ctx; CallServerStop ctx]
  end.
Proof.
  intros w1 admin. unfold w1. rewrite NotifyOperationAvailable_run.
  destruct (startAgent_frame S op w) as (Hs & Ha & Hl & Hfail).
  destruct (startAgent S op w) as [[e|] w2]; simpl in *.
  - rewrite Hfail; [reflexivity|discriminate].
  - rewrite abortWithContext_run. simpl. rewrite Ha, Hs, Hl.
    split; [reflexivity|]. split; [reflexivity|]. split.
    + fold admin. destruct admin as [ae|].
      * destruct (IsAlreadyExists (Some ae)); simpl; split; auto; try discriminate.
        intros [H|H]; discriminate.
      * simpl. split; auto.
    + rewrite map_app. simpl. repeat (rewrite <- app_assoc; simpl). reflexivity.
Qed.

End installer_facts.

(** ** More on updateConfig *)

Module cli_more.
Import trace cli cli_outcome trace_facts cli_facts.
Local Open Scope list_scope.

(** validateClusterConfig makes queries only, and returns what it returns
    without reading the log. *)
Lemma validateClusterConfig_only_queries (X : Imports) (localEnv : LocalEnvironment)
  (update : ClusterConfig) (l : list Call) :
  exists qs,
    snd (validateClusterConfig X localEnv update l) = l ++ qs /\
    Forall (fun c => isQuery c = true) qs.
Proof.
  unfold validateClusterConfig. run_cli.
  destruct (SiteOperator localEnv) as [operator|e]; simpl;
    [|exists [CallSiteOperator]; split; [reflexivity|repeat constructor]].
  destruct (GetLocalSite operator) as [cluster|e]; simpl;
    [|exists [CallSiteOperator; CallGetLocalSite]; rewrite <- app_assoc;
      split; [reflexivity|repeat constructor]].
  exists (queries cluster).
  split; [|repeat constructor].
  destruct (GetClusterConfiguration operator (Key cluster)) as [existing|e]; simpl;
    [|rewrite <- !app_assoc; reflexivity].
  destruct (validate_ClusterConfiguration X existing update); simpl;
    [rewrite <- !app_assoc; reflexivity|].
  destruct (findLocalServer X (ClusterState_Servers cluster)) as [server|e]; simpl;
    [|rewrite <- !app_assoc; reflexivity].
  destruct (if negb (ServiceCIDR (GetGlobalConfig update) =? "")%string then _ else _); simpl;
    [rewrite <- !app_assoc; reflexivity|].
  destruct (if negb (PodCIDR (GetGlobalConfig update) =? "")%string then _ else _); simpl;
    rewrite <- !app_assoc; reflexivity.
Qed.

(** updateConfig once its validation has answered nil. *)
Lemma updateConfig_validated (X : Imports) (localEnv updateEnv : LocalEnvironment)
  (config : ClusterConfig) (manual confirmed : bool) (l : list Call) :
  fst (validateClusterConfig X localEnv config l) = nil ->
  updateConfig X localEnv updateEnv config manual confirmed l =
    let l1 := snd (validateClusterConfig X localEnv config l) ++ prompt manual confirmed in
    if goesAhead X confirmed then
      match libclusterconfig_Marshal X config with
      | Failed e => (Some (WrapErr (WrapErr e)), l1)
      | Ok configBytes =>
          let init := {| resource := configBytes; config := config |} in
          match newUpdater X localEnv updateEnv init with
          | Failed e => (Some (WrapErr e), l1 ++ [CallNewUpdater init])
          | Ok updater =>
              if manual
              then (nil, l1 ++ [CallNewUpdater init; Println updateConfigManualOperationBanner;
                                CallUpdaterClose])
              else (Wrap (Updater_Run updater),
                    l1 ++ [CallNewUpdater init; CallUpdaterRun; CallUpdaterClose])
          end
      end
    else
      match confirm X with
      | Failed e => (Some (WrapErr e), l1)
      | _ => (nil, l1 ++ [Println "Action cancelled by user."])
      end.
Proof.
  intros Hv. unfold updateConfig. unfold bind at 1.
  destruct (validateClusterConfig X localEnv config l) as [err l1].
  simpl in Hv. subst err. unfold orReturnErr, nil, goesAhead, prompt, newConfigUpdater.
  cbv zeta. simpl snd.
  destruct confirmed; simpl.
  - rewrite app_nil_r. run_cli.
    destruct (libclusterconfig_Marshal X config) as [b|e]; simpl; [|reflexivity].
    destruct (newUpdater X localEnv updateEnv _) as [u|e]; simpl;
      [|rewrite <- ?app_assoc; reflexivity].
    destruct manual; simpl; rewrite <- ?app_assoc; reflexivity.
  - run_cli. destruct (confirm X) as [[|]|e]; simpl.
    + destruct (libclusterconfig_Marshal X config) as [b|e]; simpl;
        [|rewrite <- ?app_assoc; reflexivity].
      destruct (newUpdater X localEnv updateEnv _) as [u|e]; simpl;
        [|rewrite <- ?app_assoc; reflexivity].
      destruct manual; simpl; rewrite <- ?app_assoc; reflexivity.
    + rewrite <- ?app_assoc. reflexivity.
    + rewrite <- ?app_assoc. reflexivity.
Qed.

Lemma queries_do_not_mutate (qs : list Call) :
  Forall (fun c => isQuery c = true) qs -> Forall (fun c => mutates c = false) qs.
Proof.
  intros H. eapply Forall_impl; [|exact H].
  intros c Hc. destruct c; simpl in *; congruence.
Qed.

(** X13: an invocation that is not confirmed creates nothing.  When the
    validation passes and the answer at the prompt is not yes, updateConfig
    makes the queries of the validation, prints the banner of its mode and
    asks; on a no it prints that the action is cancelled and returns nil,
    on a failure to read the answer it returns that failure; no updater is
    made and no operation is created. *)
Theorem unconfirmed_update_creates_nothing
  (X : Imports) (localEnv updateEnv : LocalEnvironment) (config : ClusterConfig)
  (manual : bool) (l : list Call) :
  fst (validateClusterConfig X localEnv config l) = nil ->
  confirm X <> Ok true ->
  exists qs made,
    Forall (fun c => isQuery c = true) qs
    /\ made = qs
              ++ [Println (if manual then updateConfigBannerManual else updateConfigBanner);
                  CallConfirm]
              ++ match confirm X with
                 | Failed _ => []
                 | _ => [Println "Action cancelled by user."]
                 end
    /\ updateConfig X localEnv updateEnv config manual false l =
         (match confirm X with
          | Failed e => Some (WrapErr e)
          | _ => nil
          end, l ++ made)
    /\ Forall (fun c => mutates c = false) made.
Proof.
  intros Hv Hno.
  destruct (validateClusterConfig_only_queries X localEnv config l) as (qs & Hlog & Hqs).
  exists qs. eexists. split; [exact Hqs|]. split; [reflexivity|].
  rewrite (updateConfig_validated X localEnv updateEnv config manual false l Hv).
  cbv zeta. rewrite Hlog. unfold goesAhead, prompt. simpl.
  pose proof (queries_do_not_mutate qs Hqs) as Hq.
  destruct (confirm X) as [[|]|e]; simpl.
  - exfalso. apply Hno. reflexivity.
  - split; [rewrite <- !app_assoc; reflexivity|].
    apply Forall_app. split; [exact Hq|repeat constructor].
  - split; [rewrite <- !app_assoc; reflexivity|].
    apply Forall_app. split; [exact Hq|repeat constructor].
Qed.

Lemma unconfirmed_update_creates_nothing_witness :
  exists qs made,
    Forall (fun c => isQuery c = true) qs
    /\ made = qs
              ++ [Println (if true then updateConfigBannerManual else updateConfigBanner);
                  CallConfirm]
              ++ match confirm decliningImports with
                 | Failed _ => []
                 | _ => [Println "Action cancelled by user."]
                 end
    /\ updateConfig decliningImports sampleEnv sampleEnv harmlessUpdate true false [] =
         (match confirm decliningImports with
          | Failed e => Some (WrapErr e)
          | _ => nil
          end, [] ++ made)
    /\ Forall (fun c => mutates c = false) made.
Proof.
  apply (unconfirmed_update_creates_nothing decliningImports sampleEnv sampleEnv
           harmlessUpdate true []).
  - reflexivity.
  - discriminate.
Defined.

(** X14: in automatic mode a confirmed invocation whose validation passes
    and whose updater is made runs the plan once, releases the updater
    after the run whether the run failed or not, and returns the error of
    the run, wrapped; it prints no banner of a manual operation. *)
Theorem automatic_updateConfig_runs_and_releases
  (X : Imports) (localEnv updateEnv : LocalEnvironment) (config : ClusterConfig)
  (confirmed : bool) (configBytes : string) (updater : Updater) (l : list Call) :
  fst (validateClusterConfig X localEnv config l) = nil ->
  goesAhead X confirmed = true ->
  libclusterconfig_Marshal X config = Ok configBytes ->
  newUpdater X localEnv updateEnv {| resource := configBytes; config := config |} = Ok updater ->
  exists qs,
    Forall (fun c => isQuery c = true) qs
    /\ updateConfig X localEnv updateEnv config false confirmed l =
         (Wrap (Updater_Run updater),
          l ++ qs ++ prompt false confirmed
            ++ [CallNewUpdater {| resource := configBytes; config := config |};
                CallUpdaterRun; CallUpdaterClose])
    /\ (fst (updateConfig X localEnv updateEnv config false confirmed l) = nil
        <-> Updater_Run updater = nil).
Proof.
  intros Hv Hgo Hm Hn.
  destruct (validateClusterConfig_only_queries X localEnv config l) as (qs & Hlog & Hqs).
  exists qs. split; [exact Hqs|].
  rewrite (updateConfig_validated X localEnv updateEnv config false confirmed l Hv).
  cbv zeta. rewrite Hlog, Hgo, Hm, Hn. simpl.
  split; [rewrite <- !app_assoc; reflexivity|].
  unfold nil. destruct (Updater_Run updater); simpl; split; congruence.
Qed.

Lemma automatic_updateConfig_runs_and_releases_witness :
  exists qs,
    Forall (fun c => isQuery c = true) qs
    /\ updateConfig sampleImports sampleEnv sampleEnv harmlessUpdate false false [] =
         (Wrap (Updater_Run {| Updater_Run := Some (Base KOther "phase failed") |}),
          [] ++ qs ++ prompt false false
             ++ [CallNewUpdater {| resource := "10.200.0.0/16"; config := harmlessUpdate |};
                 CallUpdaterRun; CallUpdaterClose])
    /\ (fst (updateConfig sampleImports sampleEnv sampleEnv harmlessUpdate false false []) = nil
        <-> Updater_Run {| Updater_Run := Some (Base KOther "phase failed") |} = nil).
Proof.
  apply (automatic_updateConfig_runs_and_releases sampleImports sampleEnv sampleEnv
           harmlessUpdate false "10.200.0.0/16"
           {| Updater_Run := Some (Base KOther "phase failed") |} []);
    reflexivity.
Defined.

Lemma queries_filtered_out (f : Call -> bool) (qs : list Call) :
  (forall c, isQuery c = true -> f c = false) ->
  Forall (fun c => isQuery c = true) qs -> filter f qs = [].
Proof.
  intros Hf H. induction H as [|c qs Hc _ IH]; simpl; [reflexivity|].
  rewrite (Hf c Hc). exact IH.
Qed.

(** X15: updateConfig releases the updater exactly when it has made one,
    once, and as the last thing it does; it runs the plan exactly when it
    has made the updater in automatic mode, once.  This holds on every
    path: a failed validation, a declined or failed prompt, a failed
    marshalling, a failed newUpdater, a failed run. *)
Theorem updater_released_exactly_when_made
  (X : Imports) (localEnv updateEnv : LocalEnvironment) (config : ClusterConfig)
  (manual confirmed : bool) (l : list Call) :
  exists made,
    snd (updateConfig X localEnv updateEnv config manual confirmed l) = l ++ made
    /\ List.length (filter isUpdaterClose made) =
         (if updaterMade X localEnv updateEnv config confirmed l then 1 else 0)
    /\ List.length (filter isUpdaterRun made) =
         (if updaterMade X localEnv updateEnv config confirmed l && negb manual then 1 else 0)
    /\ (if updaterMade X localEnv updateEnv config confirmed l
        then exists before, made = before ++ [CallUpdaterClose]
        else True).
Proof.
  destruct (validateClusterConfig_only_queries X localEnv config l) as (qs & Hlog & Hqs).
  assert (Hclose : filter isUpdaterClose qs = [])
    by (apply queries_filtered_out; [intros c; destruct c; simpl; congruence|exact Hqs]).
  assert (Hrun : filter isUpdaterRun qs = [])
    by (apply queries_filtered_out; [intros c; destruct c; simpl; congruence|exact Hqs]).
  unfold updaterMade.
  destruct (fst (validateClusterConfig X localEnv config l)) as [e|] eqn:Hv.
  - rewrite (updateConfig_validation_failed _ _ _ _ _ _ _ _ Hv). simpl.
    exists qs. rewrite Hlog, Hclose, Hrun. auto.
  - rewrite (updateConfig_validated X localEnv updateEnv config manual confirmed l Hv).
    cbv zeta. rewrite Hlog. simpl.
    assert (Hp : filter isUpdaterClose (prompt manual confirmed) = []
                 /\ filter isUpdaterRun (prompt manual confirmed) = [])
      by (unfold prompt; destruct confirmed; split; reflexivity).
    destruct Hp as [Hpc Hpr].
    destruct (goesAhead X confirmed); simpl.
    + destruct (libclusterconfig_Marshal X config) as [b|e]; simpl.
      * destruct (newUpdater X localEnv updateEnv _) as [u|e]; simpl.
        -- destruct manual; simpl; eexists;
             (split; [rewrite <- !app_assoc; reflexivity|]);
             rewrite !filter_app, Hclose, Hrun, Hpc, Hpr; simpl;
             (split; [reflexivity|]); (split; [reflexivity|]);
             eexists; rewrite !app_assoc;
             match goal with
             | |- _ ++ [?a; ?b; CallUpdaterClose] = _ =>
                 change [a; b; CallUpdaterClose] with ([a; b] ++ [CallUpdaterClose]);
                 rewrite app_assoc; reflexivity
             end.
        -- eexists. split; [rewrite <- !app_assoc; reflexivity|].
           rewrite !filter_app, Hclose, Hrun, Hpc, Hpr. simpl. auto.
      * eexists. split; [rewrite <- !app_assoc; reflexivity|].
        rewrite !filter_app, Hclose, Hrun, Hpc, Hpr. simpl. auto.
    + destruct (confirm X) as [[|]|e]; simpl;
        (eexists; split; [rewrite <- !app_assoc; reflexivity|];
         rewrite !filter_app, Hclose, Hrun, Hpc, Hpr; simpl; auto).
Qed.




(** X17: when the local node is not among the servers of the cluster, the
    update is rejected with a not-found error whose message lists the
    servers; the error findLocalServer gave is not passed on.  updateConfig
    returns that error after the three queries, before any prompt. *)
Theorem missing_local_node_is_not_found
  (X : Imports) (localEnv updateEnv : LocalEnvironment) (update : ClusterConfig)
  (manual confirmed : bool) (operator : Operator) (cluster : Site)
  (existing : ClusterConfig) (cause : Err) (l : list Call) :
  SiteOperator localEnv = Ok operator ->
  GetLocalSite operator = Ok cluster ->
  GetClusterConfiguration operator (Key cluster) = Ok existing ->
  validate_ClusterConfiguration X existing update = nil ->
  findLocalServer X (ClusterState_Servers cluster) = Failed cause ->
  let rejection :=
    NotFound ("unable to find local node among cluster state servers: "
              ++ fmt_Servers X (ClusterState_Servers cluster))%string in
  validateClusterConfig X localEnv update l = (Some rejection, l ++ queries cluster)
  /\ updateConfig X localEnv updateEnv update manual confirmed l =
       (Some rejection, l ++ queries cluster)
  /\ IsNotFound (Some rejection) = true
  /\ names ("unable to find local node among cluster state servers: "
            ++ fmt_Servers X (ClusterState_Servers cluster))%string
           (fmt_Servers X (ClusterState_Servers cluster)).
Proof.
  intros Hop Hsite Hcfg Hval Hsrv rejection.
  assert (Hv : validateClusterConfig X localEnv update l = (Some rejection, l ++ queries cluster)).
  { unfold validateClusterConfig. run_cli.
    rewrite Hop. simpl. rewrite Hsite. simpl. rewrite Hcfg. simpl.
    rewrite Hval. simpl. rewrite Hsrv. simpl. unfold queries.
    rewrite <- !app_assoc. reflexivity. }
  split; [exact Hv|]. split; [|split; [reflexivity|]].
  - rewrite (updateConfig_validation_failed X localEnv updateEnv update manual confirmed l
               rejection); rewrite Hv; reflexivity.
  - exists "unable to find local node among cluster state servers: "%string, ""%string.
    clear. induction (fmt_Servers X (ClusterState_Servers cluster)) as [|c r IH]; simpl.
    + reflexivity.
    + f_equal. simpl in IH.
      assert (Hr : forall r : string, (r ++ "")%string = r)
        by (intros r0; induction r0 as [|c0 r0 IH0]; simpl; [reflexivity|rewrite IH0; reflexivity]).
      rewrite Hr. reflexivity.
Qed.

Lemma missing_local_node_is_not_found_witness :
  validateClusterConfig strangerImports sampleEnv harmlessUpdate [] =
    (Some (NotFound ("unable to find local node among cluster state servers: "
                     ++ fmt_Servers strangerImports (ClusterState_Servers sampleSite))%string),
     [] ++ queries sampleSite)
  /\ updateConfig strangerImports sampleEnv sampleEnv harmlessUpdate false true [] =
       (Some (NotFound ("unable to find local node among cluster state servers: "
                        ++ fmt_Servers strangerImports (ClusterState_Servers sampleSite))%string),
        [] ++ queries sampleSite)
  /\ IsNotFound
       (Some (NotFound ("unable to find local node among cluster state servers: "
                        ++ fmt_Servers strangerImports (ClusterState_Servers sampleSite))%string))
     = true
  /\ names ("unable to find local node among cluster state servers: "
            ++ fmt_Servers strangerImports (ClusterState_Servers sampleSite))%string
           (fmt_Servers strangerImports (ClusterState_Servers sampleSite)).
Proof.
  apply (missing_local_node_is_not_found strangerImports sampleEnv sampleEnv harmlessUpdate
           false true sampleOperator sampleSite sampleExisting
           (Base KOther "no interface matches") []);
    reflexivity.
Defined.

(** X20: updateConfig reports the first step of the validation that
    fails, whatever its flags: the error of the operator lookup, of the
    site query, of the configuration query or of the generic validation is
    returned wrapped, with its class kept, after the queries up to that
    step and no other call; no later step is tried, nothing is printed and
    no updater is made. *)
Theorem updateConfig_reports_first_failure
  (X : Imports) (localEnv updateEnv : LocalEnvironment) (update : ClusterConfig)
  (manual confirmed : bool) (l : list Call) :
  match SiteOperator localEnv with
  | Failed e =>
      updateConfig X localEnv updateEnv update manual confirmed l =
        (Some (WrapErr e), l ++ [CallSiteOperator])
  | Ok operator =>
      match GetLocalSite operator with
      | Failed e =>
          updateConfig X localEnv updateEnv update manual confirmed l =
            (Some (WrapErr e), l ++ [CallSiteOperator; CallGetLocalSite])
      | Ok cluster =>
          match GetClusterConfiguration operator (Key cluster) with
          | Failed e =>
              updateConfig X localEnv updateEnv update manual confirmed l =
                (Some (WrapErr e), l ++ queries cluster)
          | Ok existing =>
              match validate_ClusterConfiguration X existing update with
              | Some e =>
                  updateConfig X localEnv updateEnv update manual confirmed l =
                    (Some (WrapErr e), l ++ queries cluster)
              | None =>
                  exists rest,
                    snd (updateConfig X localEnv updateEnv update manual confirmed l) =
                      l ++ queries cluster ++ rest
              end
          end
      end
  end
  /\ forall k e, has_kind k (Some (WrapErr e)) = has_kind k (Some e).
Proof.
  split; [|intros k e; apply (has_kind_Wrap k (Some e))].
  assert (Hfail : forall e l1,
            validateClusterConfig X localEnv update l = (Some (WrapErr e), l1) ->
            updateConfig X localEnv updateEnv update manual confirmed l =
              (Some (WrapErr e), l1)).
  { intros e l1 H.
    rewrite (updateConfig_validation_failed X localEnv updateEnv update manual confirmed l
               (WrapErr e)); rewrite H; simpl; [|reflexivity].
    destruct e; reflexivity. }
  destruct (SiteOperator localEnv) as [operator|e] eqn:Hop.
  - destruct (GetLocalSite operator) as [cluster|e] eqn:Hsite.
    + destruct (GetClusterConfiguration operator (Key cluster)) as [existing|e] eqn:Hcfg.
      * destruct (validate_ClusterConfiguration X existing update) as [e|] eqn:Hval.
        -- apply Hfail. unfold validateClusterConfig. run_cli.
           rewrite Hop. simpl. rewrite Hsite. simpl. rewrite Hcfg. simpl. rewrite Hval. simpl.
           unfold queries. rewrite <- !app_assoc. reflexivity.
        -- destruct (updateConfig_extends X localEnv updateEnv update manual confirmed l)
             as [rest Hrest].
           assert (Hq : snd (validateClusterConfig X localEnv update l) = l ++ queries cluster).
           { unfold validateClusterConfig. run_cli.
             rewrite Hop. simpl. rewrite Hsite. simpl. rewrite Hcfg. simpl. rewrite Hval. simpl.
             unfold queries.
             destruct (findLocalServer X (ClusterState_Servers cluster)) as [server|e]; simpl;
               [|rewrite <- !app_assoc; reflexivity].
             destruct (if negb (ServiceCIDR (GetGlobalConfig update) =? "")%string
                       then _ else _); simpl; [rewrite <- !app_assoc; reflexivity|].
             destruct (if negb (PodCIDR (GetGlobalConfig update) =? "")%string
                       then _ else _); simpl; rewrite <- !app_assoc; reflexivity. }
           exists rest. rewrite Hrest, Hq, <- app_assoc. reflexivity.
      * apply Hfail. unfold validateClusterConfig. run_cli.
        rewrite Hop. simpl. rewrite Hsite. simpl. rewrite Hcfg. simpl.
        unfold queries. rewrite <- !app_assoc. reflexivity.
    + apply Hfail. unfold validateClusterConfig. run_cli.
      rewrite Hop. simpl. rewrite Hsite. simpl. rewrite <- !app_assoc. reflexivity.
  - apply Hfail. unfold validateClusterConfig. run_cli. rewrite Hop. reflexivity.
Qed.

Lemma Wrap_WrapErr (e : Err) : Wrap (Some (WrapErr e)) = Some (WrapErr e).
Proof. destruct e; reflexivity. Qed.

Lemma Wrap_Wrap (err : error) : Wrap (Wrap err) = Wrap err.
Proof. destruct err as [e|]; [apply Wrap_WrapErr|reflexivity]. Qed.

(** X21: resetConfig is updateConfig on the empty configuration: it makes
    the same calls and returns the same error, for every error updateConfig
    returns carries its trace already and the second wrapping adds
    nothing. *)
Theorem resetConfig_is_updateConfig_on_empty
  (X : Imports) (NewEmpty : ClusterConfig) (localEnv updateEnv : LocalEnvironment)
  (manual confirmed : bool) (l : list Call) :
  resetConfig X NewEmpty localEnv updateEnv manual confirmed l =
    updateConfig X localEnv updateEnv NewEmpty manual confirmed l.
Proof.
  unfold resetConfig. unfold bind at 1.
  assert (H : Wrap (fst (updateConfig X localEnv updateEnv NewEmpty manual confirmed l)) =
              fst (updateConfig X localEnv updateEnv NewEmpty manual confirmed l)).
  { destruct (fst (validateClusterConfig X localEnv NewEmpty l)) as [e|] eqn:Hv.
    - rewrite (updateConfig_validation_failed _ _ _ _ _ _ _ _ Hv). apply Wrap_WrapErr.
    - rewrite (updateConfig_validated X localEnv updateEnv NewEmpty manual confirmed l Hv).
      cbv zeta.
      destruct (goesAhead X confirmed).
      + destruct (libclusterconfig_Marshal X NewEmpty) as [b|e]; [|apply Wrap_WrapErr].
        destruct (newUpdater X localEnv updateEnv _) as [u|e]; [|apply Wrap_WrapErr].
        destruct manual; [reflexivity|apply Wrap_Wrap].
      + destruct (confirm X) as [[|]|e]; [reflexivity|reflexivity|apply Wrap_WrapErr]. }
  destruct (updateConfig X localEnv updateEnv NewEmpty manual confirmed l) as [err l1].
  simpl in H. unfold ret. rewrite H. reflexivity.
Qed.

End cli_more.

(** ** The operation's phases: release of what is opened *)

Module cli_phase_facts.
Import trace cli_phase.
Local Open Scope list_scope.

Ltac run_phase := unfold defer, bind, ret, call, orReturnErr; simpl.

Ltac by_answers E :=
  destruct (NewUpdateEnv E); simpl; [rewrite <- ?app_assoc; reflexivity|];
  destruct (NewClusterEnvironment E); simpl; [rewrite <- ?app_assoc; reflexivity|];
  destruct (GetClientCredentials E); simpl; [rewrite <- ?app_assoc; reflexivity|];
  destruct (clusterconfig_New E); simpl; [rewrite <- ?app_assoc; reflexivity|].

Lemma executeConfigPhaseForOperation_calls (E : Answers) (params : PhaseParams) (l : list Call) :
  snd (executeConfigPhaseForOperation E params l) =
    l ++ callsOf E [CallExecuteOrForkPhase params].
Proof.
  unfold executeConfigPhaseForOperation, getConfigUpdater, callsOf. run_phase.
  by_answers E. rewrite <- ?app_assoc. reflexivity.
Qed.

Lemma setConfigPhaseForOperation_calls (E : Answers) (params : SetPhaseParams) (l : list Call) :
  snd (setConfigPhaseForOperation E params l) =
    l ++ callsOf E [CallSetPhase (SetPhase_PhaseID params) (SetPhase_State params)].
Proof.
  unfold setConfigPhaseForOperation, getConfigUpdater, callsOf. run_phase.
  by_answers E. rewrite <- ?app_assoc. reflexivity.
Qed.

Lemma rollbackConfigPhaseForOperation_calls (E : Answers) (params : PhaseParams) (l : list Call) :
  snd (rollbackConfigPhaseForOperation E params l) =
    l ++ callsOf E [CallRollbackPhase {| Params_PhaseID := PhaseID params;
                                         Params_Force := Force params;
                                         Params_DryRun := DryRun params |}
                      (Timeout params)].
Proof.
  unfold rollbackConfigPhaseForOperation, getConfigUpdater, callsOf. run_phase.
  by_answers E. rewrite <- ?app_assoc. reflexivity.
Qed.

Lemma completeConfigPlanForOperation_calls (E : Answers) (l : list Call) :
  snd (completeConfigPlanForOperation E l) = l ++ callsOf E (completion E).
Proof.
  unfold completeConfigPlanForOperation, getConfigUpdater, callsOf, completion. run_phase.
  by_answers E.
  destruct (Updater_Complete E); simpl; [rewrite <- ?app_assoc; reflexivity|].
  destruct (Updater_Activate E); simpl; rewrite <- ?app_assoc; reflexivity.
Qed.

Lemma callsOf_released (E : Answers) (action : list Call) :
  Forall (fun c => isClose c = false) action -> released E (callsOf E action).
Proof.
  intros Ha. unfold released, releases, callsOf, updaterOpened, envOpened.
  destruct (isNil (NewUpdateEnv E)); simpl.
  - destruct (isNil (NewClusterEnvironment E)); simpl.
    + destruct (isNil (GetClientCredentials E)); simpl.
      * destruct (isNil (clusterconfig_New E)); simpl.
        -- exists ([CallNewUpdateEnv; CallNewClusterEnvironment; CallGetClientCredentials;
                    CallNewAgentRunner; CallNew] ++ action).
           split; [simpl; rewrite <- !app_assoc; reflexivity|].
           apply Forall_app. split; [repeat constructor|exact Ha].
        -- exists [CallNewUpdateEnv; CallNewClusterEnvironment; CallGetClientCredentials;
                   CallNewAgentRunner; CallNew].
           split; [reflexivity|repeat constructor].
      * exists [CallNewUpdateEnv; CallNewClusterEnvironment; CallGetClientCredentials].
        split; [reflexivity|repeat constructor].
    + exists [CallNewUpdateEnv; CallNewClusterEnvironment].
      split; [reflexivity|repeat constructor].
  - exists [CallNewUpdateEnv]. split; [reflexivity|repeat constructor].
Qed.

(** X18: each of the four functions that work on an operation's plan
    releases what it has opened, whatever fails on the way: the update
    environment is closed exactly when it was made, the updater exactly
    when it was made, the updater first, as the last calls of the function,
    and nothing is closed that was not opened. *)
Theorem phase_functions_release_what_they_open
  (E : Answers) (params : PhaseParams) (setParams : SetPhaseParams) (l : list Call) :
  (exists made, snd (executeConfigPhaseForOperation E params l) = l ++ made
                /\ released E made)
  /\ (exists made, snd (setConfigPhaseForOperation E setParams l) = l ++ made
                   /\ released E made)
  /\ (exists made, snd (rollbackConfigPhaseForOperation E params l) = l ++ made
                   /\ released E made)
  /\ (exists made, snd (completeConfigPlanForOperation E l) = l ++ made
                   /\ released E made).
Proof.
  split; [|split; [|split]].
  - eexists. split; [apply executeConfigPhaseForOperation_calls|].
    apply callsOf_released. repeat constructor.
  - eexists. split; [apply setConfigPhaseForOperation_calls|].
    apply callsOf_released. repeat constructor.
  - eexists. split; [apply rollbackConfigPhaseForOperation_calls|].
    apply callsOf_released. repeat constructor.
  - eexists. split; [apply completeConfigPlanForOperation_calls|].
    apply callsOf_released. unfold completion.
    destruct (isNil (Updater_Complete E)); repeat constructor.
Qed.

Lemma completeConfigPlanForOperation_result (E : Answers) (l : list Call) :
  fst (completeConfigPlanForOperation E l) = nil <->
  updaterOpened E = true /\ Updater_Complete E = nil /\ Updater_Activate E = nil.
Proof.
  unfold completeConfigPlanForOperation, getConfigUpdater, updaterOpened, nil. run_phase.
  destruct (NewUpdateEnv E); simpl; [split; [discriminate|intros (H & _); discriminate]|].
  destruct (NewClusterEnvironment E); simpl;
    [split; [discriminate|intros (H & _); discriminate]|].
  destruct (GetClientCredentials E); simpl;
    [split; [discriminate|intros (H & _); discriminate]|].
  destruct (clusterconfig_New E); simpl;
    [split; [discriminate|intros (H & _); discriminate]|].
  destruct (Updater_Complete E); simpl;
    [split; [discriminate|intros (_ & H & _); discriminate]|].
  destruct (Updater_Activate E); simpl;
    [split; [discriminate|intros (_ & _ & H); discriminate]|].
  split; auto.
Qed.

(** X19: completeConfigPlanForOperation activates the plan only after it
    has completed it without an error: Activate is called exactly when the
    updater was made and Complete answered nil, and then directly after
    Complete; the function returns nil exactly when the updater was made
    and both Complete and Activate answered nil. *)
Theorem plan_is_activated_only_once_completed (E : Answers) (l : list Call) :
  (fst (completeConfigPlanForOperation E l) = nil <->
     updaterOpened E = true /\ Updater_Complete E = nil /\ Updater_Activate E = nil)
  /\ exists made,
       snd (completeConfigPlanForOperation E l) = l ++ made
       /\ (In CallActivate made <-> updaterOpened E = true /\ Updater_Complete E = nil)
       /\ (In CallActivate made ->
           exists before after, made = before ++ [CallComplete; CallActivate] ++ after).
Proof.
  split; [apply completeConfigPlanForOperation_result|].
  exists (callsOf E (completion E)).
  split; [apply completeConfigPlanForOperation_calls|].
  unfold callsOf, completion, updaterOpened, nil.
  destruct (NewUpdateEnv E); simpl;
    [split; [split; [intros [H|[]]; discriminate|intros (H & _); discriminate]
            |intros [H|[]]; discriminate]|].
  destruct (NewClusterEnvironment E); simpl;
    [split; [split; [intros [H|[H|[H|[]]]]; discriminate|intros (H & _); discriminate]
            |intros [H|[H|[H|[]]]]; discriminate]|].
  destruct (GetClientCredentials E); simpl;
    [split; [split; [intros [H|[H|[H|[H|[]]]]]; discriminate|intros (H & _); discriminate]
            |intros [H|[H|[H|[H|[]]]]]; discriminate]|].
  destruct (clusterconfig_New E); simpl;
    [split; [split; [intros H; repeat (destruct H as [H|H]; [discriminate|]); contradiction
                    |intros (H & _); discriminate]
            |intros H; repeat (destruct H as [H|H]; [discriminate|]); contradiction]|].
  destruct (Updater_Complete E); simpl.
  - split; [split; [intros H; repeat (destruct H as [H|H]; [discriminate|]); contradiction
                   |intros (_ & H); discriminate]
           |intros H; repeat (destruct H as [H|H]; [discriminate|]); contradiction].
  - split; [split; [auto|intros _; do 6 right; left; reflexivity]|].
    intros _.
    exists [CallNewUpdateEnv; CallNewClusterEnvironment; CallGetClientCredentials;
            CallNewAgentRunner; CallNew],
           [CallUpdaterClose; CallUpdateEnvClose].
    reflexivity.
Qed.

End cli_phase_facts.
